(** * The document state machine of the layout editor

    A shallow embedding of [src/state/editorState.tsx]: the object model,
    the geometry helpers, the history container, the reducer
    [editorReducer] and the JSON import/export pair, followed by the
    properties of the state machine. *)

From Stdlib Require Import ZArith Floats.SpecFloat.
From stdpp Require Import base option list strings gmap.

Set Warnings "-register-all".

Local Open Scope string_scope.
Local Open Scope list_scope.

(** ** JavaScript numbers

    A TypeScript [number] is an IEEE 754 binary64 value.  They are modelled
    by the Standard Library's [spec_float] at precision 53 and maximal
    exponent 1024, whose operations are plain functions that evaluate. *)

Module Num.

Definition number : Type := spec_float.

Definition prec : Z := 53.
Definition emax : Z := 1024.

Definition NaN : number := S754_nan.
Definition Infinity : number := S754_infinity false.
Definition neg_Infinity : number := S754_infinity true.

(** An integer literal, and the number an array index is. *)
Definition of_Z (z : Z) : number := binary_normalize prec emax z 0 false.
Definition of_nat (n : nat) : number := of_Z (Z.of_nat n).

(** The literals [0.2], [0.8] and [0.95], rounded to the nearest binary64
    value as the JavaScript parser does. *)
Definition lit_0_2 : number := S754_finite false 7205759403792794 (-55).
Definition lit_0_8 : number := S754_finite false 7205759403792794 (-53).
Definition lit_0_95 : number := S754_finite false 8556839292003942 (-53).

Definition sub (a b : number) : number := SFsub prec emax a b.
Definition ltb (a b : number) : bool := SFltb a b.
Definition leb (a b : number) : bool := SFleb a b.

Definition is_nan (a : number) : bool :=
  match a with S754_nan => true | _ => false end.

(** Finite values, and negative zero, which [JSON.stringify] prints as 0. *)
Definition is_finite (a : number) : bool :=
  match a with S754_zero _ | S754_finite _ _ _ => true | _ => false end.
Definition is_neg_zero (a : number) : bool :=
  match a with S754_zero true => true | _ => false end.
Definition is_pos_zero (a : number) : bool :=
  match a with S754_zero false => true | _ => false end.

(** One step of the loop of [Math.max] (ECMAScript 21.3.2.24): NaN is
    sticky, +0 is above -0, otherwise the larger value is kept. *)
Definition max_step (highest v : number) : number :=
  if is_nan highest || is_nan v then NaN
  else if is_pos_zero v && is_neg_zero highest then v
  else if ltb highest v then v
  else highest.

(** One step of the loop of [Math.min] (ECMAScript 21.3.2.25). *)
Definition min_step (lowest v : number) : number :=
  if is_nan lowest || is_nan v then NaN
  else if is_neg_zero v && is_pos_zero lowest then v
  else if ltb v lowest then v
  else lowest.

(** [Math.max(...vs)] starts from -Infinity, [Math.min(...vs)] from
    +Infinity; with no argument they return these. *)
Definition Math_max (vs : list number) : number :=
  foldl max_step neg_Infinity vs.
Definition Math_min (vs : list number) : number :=
  foldl min_step Infinity vs.

(** Products and quotients, and the literal [1.05]. *)
Definition mul (a b : number) : number := SFmul prec emax a b.
Definition div (a b : number) : number := SFdiv prec emax a b.
Definition lit_1_05 : number := S754_finite false 4728779608739021 (-52).

(** [a || b] on numbers: [a] unless it is falsy, that is NaN, +0 or -0. *)
Definition is_zero (a : number) : bool :=
  match a with S754_zero _ => true | _ => false end.
Definition or_else (a b : number) : number :=
  if is_nan a || is_zero a then b else a.

End Num.

Export Num(number).

(** ** Object model *)

(** The string-literal unions ["region" | "text" | ...] and
    ["left" | "center" | "right"], each in a name space of its own. *)
Module ObjectType.
Inductive t := region | text | image | rect | circle.
End ObjectType.

Module Align.
Inductive t := left | center | right.
End Align.

Abbreviation ObjectType := ObjectType.t.
Abbreviation Align := Align.t.

Record EditorObject := mkEditorObject {
  id : string;
  type : ObjectType;
  name : string;
  x : number;
  y : number;
  width : number;
  height : number;
  rotation : number;
  zIndex : number;
  scaleX : option number;
  scaleY : option number;
  fill : option string;
  stroke : option string;
  strokeWidth : option number;
  opacity : number;
  visible : bool;
  locked : bool;
  patternId : option string;
  points : option (list number);
  text : option string;
  fontSize : option number;
  fontFamily : option string;
  align : option Align;
  src : option string;
}.

Record Point := mkPoint { px : number; py : number }.

Record EditorPresent := mkEditorPresent {
  objects : list EditorObject;
  selectedId : option string;
  zoom : number;
  pan : Point;
}.

Record EditorState := mkEditorState {
  past : list EditorPresent;
  present : EditorPresent;
  future : list EditorPresent;
}.

(** [Partial<EditorObject>]: every key may be absent ([None]).  A key of
    an optional field may also be present and hold [undefined], which the
    spread copies over the old value ([Some None]).  A required key that
    holds [undefined] would take the merged object out of [EditorObject];
    it has no counterpart here. *)
Record PartialObject := mkPartialObject {
  p_id : option string;
  p_type : option ObjectType;
  p_name : option string;
  p_x : option number;
  p_y : option number;
  p_width : option number;
  p_height : option number;
  p_rotation : option number;
  p_zIndex : option number;
  p_scaleX : option (option number);
  p_scaleY : option (option number);
  p_fill : option (option string);
  p_stroke : option (option string);
  p_strokeWidth : option (option number);
  p_opacity : option number;
  p_visible : option bool;
  p_locked : option bool;
  p_patternId : option (option string);
  p_points : option (option (list number));
  p_text : option (option string);
  p_fontSize : option (option number);
  p_fontFamily : option (option string);
  p_align : option (option Align);
  p_src : option (option string);
}.

Inductive EditorAction :=
| SET_SELECTED (i : option string)
| ADD_OBJECT (object : EditorObject)
| UPDATE_OBJECT (i : string) (changes : PartialObject)
| DELETE_OBJECT (i : string)
| BRING_TO_FRONT (i : string)
| SEND_TO_BACK (i : string)
| SET_VISIBILITY (i : string) (v : bool)
| SET_LOCK (i : string) (l : bool)
| SET_ZOOM (z : number)
| SET_VIEWPORT (z : number) (p : Point)
| SET_PAN (p : Point)
| RESET
| IMPORT_STATE (p : EditorPresent)
| UNDO
| REDO
| CLEAR.

Global Instance ObjectType_eq_dec : EqDecision ObjectType.
Proof. solve_decision. Defined.

(** *** Object spreads: [{ ...obj, key: value }] *)

Definition with_zIndex (z : number) (o : EditorObject) : EditorObject :=
  mkEditorObject (id o) (type o) (name o) (x o) (y o) (width o) (height o)
    (rotation o) z (scaleX o) (scaleY o) (fill o) (stroke o) (strokeWidth o)
    (opacity o) (visible o) (locked o) (patternId o) (points o) (text o)
    (fontSize o) (fontFamily o) (align o) (src o).

Definition with_visible (v : bool) (o : EditorObject) : EditorObject :=
  mkEditorObject (id o) (type o) (name o) (x o) (y o) (width o) (height o)
    (rotation o) (zIndex o) (scaleX o) (scaleY o) (fill o) (stroke o)
    (strokeWidth o) (opacity o) v (locked o) (patternId o) (points o)
    (text o) (fontSize o) (fontFamily o) (align o) (src o).

Definition with_locked (l : bool) (o : EditorObject) : EditorObject :=
  mkEditorObject (id o) (type o) (name o) (x o) (y o) (width o) (height o)
    (rotation o) (zIndex o) (scaleX o) (scaleY o) (fill o) (stroke o)
    (strokeWidth o) (opacity o) (visible o) l (patternId o) (points o)
    (text o) (fontSize o) (fontFamily o) (align o) (src o).

(** [{ ...obj, ...changes }]: each key present in [changes] wins. *)
Definition merge (o : EditorObject) (c : PartialObject) : EditorObject :=
  mkEditorObject
    (default (id o) (p_id c)) (default (type o) (p_type c))
    (default (name o) (p_name c)) (default (x o) (p_x c))
    (default (y o) (p_y c)) (default (width o) (p_width c))
    (default (height o) (p_height c)) (default (rotation o) (p_rotation c))
    (default (zIndex o) (p_zIndex c)) (default (scaleX o) (p_scaleX c))
    (default (scaleY o) (p_scaleY c)) (default (fill o) (p_fill c))
    (default (stroke o) (p_stroke c))
    (default (strokeWidth o) (p_strokeWidth c))
    (default (opacity o) (p_opacity c)) (default (visible o) (p_visible c))
    (default (locked o) (p_locked c)) (default (patternId o) (p_patternId c))
    (default (points o) (p_points c)) (default (text o) (p_text c))
    (default (fontSize o) (p_fontSize c))
    (default (fontFamily o) (p_fontFamily c))
    (default (align o) (p_align c)) (default (src o) (p_src c)).

(** *** Snapshot spreads: [{ ...present, key: value }] *)

Definition with_objects (os : list EditorObject) (p : EditorPresent) :=
  mkEditorPresent os (selectedId p) (zoom p) (pan p).
Definition with_selectedId (s : option string) (p : EditorPresent) :=
  mkEditorPresent (objects p) s (zoom p) (pan p).
Definition with_zoom (z : number) (p : EditorPresent) :=
  mkEditorPresent (objects p) (selectedId p) z (pan p).
Definition with_pan (q : Point) (p : EditorPresent) :=
  mkEditorPresent (objects p) (selectedId p) (zoom p) q.

(** ** Geometry utilities *)

Definition clamp (value min max : number) : number :=
  Num.Math_min [Num.Math_max [value; min]; max].

(** The loop of [getBoundsFromPoints]: [i] runs over 0, 2, 4, ... below
    [points.length], pushing [points[i]] to [xs] and [points[i + 1]] to
    [ys].  With an odd length the last [points[i + 1]] is [undefined],
    which [Math.min] and [Math.max] read as NaN: it is pushed as NaN. *)
Fixpoint split_points (points : list number) : list number * list number :=
  match points with
  | [] => ([], [])
  | [a] => ([a], [Num.NaN])
  | a :: b :: rest =>
      let '(xs, ys) := split_points rest in (a :: xs, b :: ys)
  end.

Record Bounds := mkBounds {
  b_width : number; b_height : number; b_minX : number; b_minY : number }.

Definition getBoundsFromPoints (points : list number) : Bounds :=
  let '(xs, ys) := split_points points in
  let minX := Num.Math_min xs in
  let maxX := Num.Math_max xs in
  let minY := Num.Math_min ys in
  let maxY := Num.Math_max ys in
  mkBounds (Num.sub maxX minX) (Num.sub maxY minY) minX minY.

Definition createRegion (i name : string) (points : list number)
    (fill : string) (zIndex : number) : EditorObject :=
  let bounds := getBoundsFromPoints points in
  {| id := i; type := ObjectType.region; name := name; points := Some points;
     x := Num.of_Z 0; y := Num.of_Z 0;
     width := b_width bounds; height := b_height bounds;
     rotation := Num.of_Z 0; zIndex := zIndex; opacity := Num.lit_0_95;
     visible := true; locked := false; fill := Some fill;
     stroke := Some "#0f172a"; strokeWidth := Some Num.lit_0_8;
     scaleX := Some (Num.of_Z 1); scaleY := Some (Num.of_Z 1);
     patternId := None; text := None; fontSize := None; fontFamily := None;
     align := None; src := None |}.

Definition initialRegions : list EditorObject :=
  [ createRegion "region-top" "Top Panel"
      (Num.of_Z <$> [120; 60; 220; 60; 250; 150; 90; 150])%Z "#fef2f2"
      (Num.of_Z 0);
    createRegion "region-bottom" "Bottom Panel"
      (Num.of_Z <$> [110; 170; 240; 170; 230; 260; 120; 260])%Z "#e0f2fe"
      (Num.of_Z 1);
    createRegion "region-left-strap" "Left Strap"
      (Num.of_Z <$> [110; 60; 130; 60; 110; 20; 90; 20])%Z "#ede9fe"
      (Num.of_Z 2);
    createRegion "region-right-strap" "Right Strap"
      (Num.of_Z <$> [220; 60; 240; 60; 260; 20; 240; 20])%Z "#eef2ff"
      (Num.of_Z 3) ].

Definition initialPresent : EditorPresent :=
  {| objects := initialRegions; selectedId := None; zoom := Num.of_Z 1;
     pan := mkPoint (Num.of_Z 0) (Num.of_Z 0) |}.

(** ** The reducer *)

Definition normalizeZIndex (objects : list EditorObject) : list EditorObject :=
  imap (fun index obj => with_zIndex (Num.of_nat index) obj) objects.

Definition pushHistory (state : EditorState) (next : EditorPresent)
    : EditorState :=
  {| past := past state ++ [present state]; present := next; future := [] |}.

(** [objects.find((o) => o.id === i)] *)
Definition find_by_id (i : string) (os : list EditorObject)
    : option EditorObject :=
  List.find (fun o => bool_decide (id o = i)) os.

(** The [switch] of the reducer, one branch per command.  In [UNDO],
    [last] is [past[past.length - 1]], absent exactly when [past.length] is
    0, and [take (length - 1)] is [slice(0, length - 1)]; in [REDO], the
    head is [future[0]] and [drop 1] is [slice(1)]. *)
Definition editorReducer (state : EditorState) (action : EditorAction)
    : EditorState :=
  let cur := present state in
  match action with
  | SET_SELECTED i =>
      {| past := past state; present := with_selectedId i cur;
         future := future state |}
  | ADD_OBJECT object =>
      let objects := normalizeZIndex
        (objects cur ++ [with_zIndex (Num.of_nat (length (objects cur))) object]) in
      let present :=
        with_selectedId (Some (id object)) (with_objects objects cur) in
      pushHistory state present
  | UPDATE_OBJECT i changes =>
      let objects := normalizeZIndex
        ((fun obj => if bool_decide (id obj = i) then merge obj changes else obj)
           <$> objects cur) in
      pushHistory state (with_objects objects cur)
  | DELETE_OBJECT i =>
      let objects := normalizeZIndex
        (filter (fun obj => id obj ≠ i) (objects cur)) in
      let selectedId :=
        if bool_decide (selectedId cur = Some i) then None
        else selectedId cur in
      pushHistory state (with_selectedId selectedId (with_objects objects cur))
  | BRING_TO_FRONT i =>
      match find_by_id i (objects cur) with
      | None => state
      | Some target =>
          let rest := filter (fun o => id o ≠ i) (objects cur) in
          pushHistory state
            (with_objects (normalizeZIndex (rest ++ [target])) cur)
      end
  | SEND_TO_BACK i =>
      match find_by_id i (objects cur) with
      | None => state
      | Some target =>
          let rest := filter (fun o => id o ≠ i) (objects cur) in
          pushHistory state
            (with_objects (normalizeZIndex (target :: rest)) cur)
      end
  | SET_VISIBILITY i v =>
      let objects := normalizeZIndex
        ((fun obj => if bool_decide (id obj = i) then with_visible v obj else obj)
           <$> objects cur) in
      pushHistory state (with_objects objects cur)
  | SET_LOCK i l =>
      let objects := normalizeZIndex
        ((fun obj => if bool_decide (id obj = i) then with_locked l obj else obj)
           <$> objects cur) in
      pushHistory state (with_objects objects cur)
  | SET_ZOOM z =>
      let zoom := clamp z Num.lit_0_2 (Num.of_Z 4) in
      pushHistory state (with_zoom zoom cur)
  | SET_VIEWPORT z p =>
      let zoom := clamp z Num.lit_0_2 (Num.of_Z 4) in
      pushHistory state (with_pan p (with_zoom zoom cur))
  | SET_PAN p => pushHistory state (with_pan p cur)
  | RESET => {| past := []; present := initialPresent; future := [] |}
  | IMPORT_STATE p =>
      {| past := [];
         present := with_objects (normalizeZIndex (objects p)) p;
         future := [] |}
  | UNDO =>
      match last (past state) with
      | None => state
      | Some previous =>
          {| past := take (length (past state) - 1) (past state);
             present := previous;
             future := cur :: future state |}
      end
  | REDO =>
      match future state with
      | [] => state
      | next :: _ =>
          {| past := past state ++ [cur]; present := next;
             future := drop 1 (future state) |}
      end
  | CLEAR =>
      pushHistory state
        (with_selectedId None
           (with_objects
              (normalizeZIndex (filter (fun o => type o = ObjectType.region)
                 (objects cur)))
              cur))
  end.

(** The state [useReducer] starts from, and a run of commands. *)
Definition initialState : EditorState :=
  {| past := []; present := initialPresent; future := [] |}.

Definition run (state : EditorState) (actions : list EditorAction)
    : EditorState :=
  foldl editorReducer state actions.

(** ** Serialization

    [serializeState] is [JSON.stringify] and [parseState] starts with
    [JSON.parse].  The text is represented by the JSON value it denotes:
    numbers are binary64 values, an object is a finite map from its keys.
    The layout of the text (key order, the indentation of 2) and the
    decimal spelling of numbers are left to the platform, whose printer and
    parser agree on every JSON value. *)

Inductive json :=
| JNull
| JBool (b : bool)
| JNumber (n : number)
| JString (s : string)
| JArray (l : list json)
| JObject (m : gmap string json).

(** *** [JSON.stringify]

    A number that is not finite is written [null]; negative zero is written
    [0]; a key whose value is [undefined] is left out. *)

Definition json_of_number (n : number) : json :=
  if Num.is_finite n
  then JNumber (if Num.is_neg_zero n then S754_zero false else n)
  else JNull.

Definition json_of_type (t : ObjectType) : json :=
  JString match t with
          | ObjectType.region => "region" | ObjectType.text => "text"
          | ObjectType.image => "image" | ObjectType.rect => "rect"
          | ObjectType.circle => "circle"
          end.

Definition json_of_align (a : Align) : json :=
  JString match a with
          | Align.left => "left" | Align.center => "center"
          | Align.right => "right"
          end.

Definition json_of_points (ps : list number) : json :=
  JArray (json_of_number <$> ps).

(** One key of an object being written: absent when the value is
    [undefined]. *)
Definition put (k : string) (v : option json) (m : gmap string json)
    : gmap string json :=
  match v with Some j => <[k := j]> m | None => m end.

Definition object_fields (o : EditorObject) : gmap string json :=
    (put "id" (Some (JString (id o)))
    (put "type" (Some (json_of_type (type o)))
    (put "name" (Some (JString (name o)))
    (put "x" (Some (json_of_number (x o)))
    (put "y" (Some (json_of_number (y o)))
    (put "width" (Some (json_of_number (width o)))
    (put "height" (Some (json_of_number (height o)))
    (put "rotation" (Some (json_of_number (rotation o)))
    (put "zIndex" (Some (json_of_number (zIndex o)))
    (put "scaleX" (json_of_number <$> scaleX o)
    (put "scaleY" (json_of_number <$> scaleY o)
    (put "fill" (JString <$> fill o)
    (put "stroke" (JString <$> stroke o)
    (put "strokeWidth" (json_of_number <$> strokeWidth o)
    (put "opacity" (Some (json_of_number (opacity o)))
    (put "visible" (Some (JBool (visible o)))
    (put "locked" (Some (JBool (locked o)))
    (put "patternId" (JString <$> patternId o)
    (put "points" (json_of_points <$> points o)
    (put "text" (JString <$> text o)
    (put "fontSize" (json_of_number <$> fontSize o)
    (put "fontFamily" (JString <$> fontFamily o)
    (put "align" (json_of_align <$> align o)
    (put "src" (JString <$> src o) ∅)))))))))))))))))))))))).

Definition json_of_object (o : EditorObject) : json :=
  JObject (object_fields o).

Definition json_of_point (q : Point) : json :=
  JObject (put "x" (Some (json_of_number (px q)))
          (put "y" (Some (json_of_number (py q))) ∅)).

Definition json_of_selectedId (s : option string) : json :=
  match s with Some i => JString i | None => JNull end.

Definition JSON_stringify (p : EditorPresent) : json :=
  JObject
    (put "objects" (Some (JArray (json_of_object <$> objects p)))
    (put "selectedId" (Some (json_of_selectedId (selectedId p)))
    (put "zoom" (Some (json_of_number (zoom p)))
    (put "pan" (Some (json_of_point (pan p))) ∅)))).

Definition serializeState (present : EditorPresent) : json :=
  JSON_stringify present.

(** *** [JSON.parse] and the cast [as EditorPresent]

    The cast checks nothing.  The readers below give [None] for a value
    that is not of the type it is cast to; such a value has no counterpart
    in [EditorPresent].  The one key that is let through as it comes is
    the [zIndex] of an object: [parseState] overwrites it with the array
    position before the snapshot leaves it and never reads it, so an
    object whose [zIndex] is missing, [null] or of another type still
    gives a well-typed snapshot.  Such a [zIndex] is held as NaN until it
    is overwritten. *)

Definition as_number (j : json) : option number :=
  match j with JNumber n => Some n | _ => None end.
Definition as_string (j : json) : option string :=
  match j with JString s => Some s | _ => None end.
Definition as_bool (j : json) : option bool :=
  match j with JBool b => Some b | _ => None end.

Definition as_type (j : json) : option ObjectType :=
  s ← as_string j;
  if bool_decide (s = "region") then Some ObjectType.region
  else if bool_decide (s = "text") then Some ObjectType.text
  else if bool_decide (s = "image") then Some ObjectType.image
  else if bool_decide (s = "rect") then Some ObjectType.rect
  else if bool_decide (s = "circle") then Some ObjectType.circle
  else None.

Definition as_align (j : json) : option Align :=
  s ← as_string j;
  if bool_decide (s = "left") then Some Align.left
  else if bool_decide (s = "center") then Some Align.center
  else if bool_decide (s = "right") then Some Align.right
  else None.

Definition as_points (j : json) : option (list number) :=
  match j with JArray l => mapM as_number l | _ => None end.

(** A key that must be there, and a key that may be missing. *)
Definition required {T} (read : json → option T) (f : option json)
    : option T :=
  f ≫= read.
Definition optional {T} (read : json → option T) (f : option json)
    : option (option T) :=
  match f with None => Some None | Some j => Some <$> read j end.

Definition as_object (j : json) : option EditorObject :=
  match j with
  | JObject m =>
      id ← required as_string (m !! "id");
      type ← required as_type (m !! "type");
      name ← required as_string (m !! "name");
      x ← required as_number (m !! "x");
      y ← required as_number (m !! "y");
      width ← required as_number (m !! "width");
      height ← required as_number (m !! "height");
      rotation ← required as_number (m !! "rotation");
      zIndex ← Some (default Num.NaN (m !! "zIndex" ≫= as_number));
      scaleX ← optional as_number (m !! "scaleX");
      scaleY ← optional as_number (m !! "scaleY");
      fill ← optional as_string (m !! "fill");
      stroke ← optional as_string (m !! "stroke");
      strokeWidth ← optional as_number (m !! "strokeWidth");
      opacity ← required as_number (m !! "opacity");
      visible ← required as_bool (m !! "visible");
      locked ← required as_bool (m !! "locked");
      patternId ← optional as_string (m !! "patternId");
      points ← optional as_points (m !! "points");
      text ← optional as_string (m !! "text");
      fontSize ← optional as_number (m !! "fontSize");
      fontFamily ← optional as_string (m !! "fontFamily");
      align ← optional as_align (m !! "align");
      src ← optional as_string (m !! "src");
      Some (mkEditorObject id type name x y width height rotation zIndex
              scaleX scaleY fill stroke strokeWidth opacity visible locked
              patternId points text fontSize fontFamily align src)
  | _ => None
  end.

Definition as_point (j : json) : option Point :=
  match j with
  | JObject m =>
      x ← required as_number (m !! "x");
      y ← required as_number (m !! "y");
      Some (mkPoint x y)
  | _ => None
  end.

(** [selectedId: string | null] *)
Definition as_selectedId (j : json) : option (option string) :=
  match j with
  | JNull => Some None
  | JString s => Some (Some s)
  | _ => None
  end.

(** [parsed.objects] may be missing or [null]; [?? []] then takes over. *)
Definition as_objects (f : option json) : option (option (list EditorObject)) :=
  match f with
  | None | Some JNull => Some None
  | Some (JArray l) => Some <$> mapM as_object l
  | Some _ => None
  end.

Record Parsed := mkParsed {
  parsed_objects : option (list EditorObject);
  parsed_selectedId : option string;
  parsed_zoom : number;
  parsed_pan : Point;
}.

Definition JSON_parse (text : json) : option Parsed :=
  match text with
  | JObject m =>
      objects ← as_objects (m !! "objects");
      selectedId ← required as_selectedId (m !! "selectedId");
      zoom ← required as_number (m !! "zoom");
      pan ← required as_point (m !! "pan");
      Some (mkParsed objects selectedId zoom pan)
  | _ => None
  end.

(** [{ ...parsed, objects: normalizeZIndex(parsed.objects ?? []) }] *)
Definition parseState (text : json) : option EditorPresent :=
  parsed ← JSON_parse text;
  Some {| objects := normalizeZIndex (default [] (parsed_objects parsed));
          selectedId := parsed_selectedId parsed;
          zoom := parsed_zoom parsed;
          pan := parsed_pan parsed |}.

(** *** Snapshots that JSON can carry

    A number survives the text when it is finite and not negative zero.
    The [zIndex] of an object need not: it is overwritten on the way in. *)

Definition json_number (n : number) : bool :=
  Num.is_finite n && negb (Num.is_neg_zero n).

Definition json_object (o : EditorObject) : bool :=
  json_number (x o) && json_number (y o) && json_number (width o)
  && json_number (height o) && json_number (rotation o)
  && json_number (opacity o)
  && from_option json_number true (scaleX o)
  && from_option json_number true (scaleY o)
  && from_option json_number true (strokeWidth o)
  && from_option json_number true (fontSize o)
  && from_option (forallb json_number) true (points o).

Definition valid_snapshot (p : EditorPresent) : bool :=
  forallb json_object (objects p) && json_number (zoom p)
  && json_number (px (pan p)) && json_number (py (pan p)).

(** ** Predicates used by the properties *)

(** The z-order indices are 0, 1, ..., n-1 in array order. *)
Definition normalized (os : list EditorObject) : Prop :=
  zIndex <$> os = Num.of_nat <$> seq 0 (length os).

(** The commands the reducer routes through [pushHistory]. *)
Definition history_producing (a : EditorAction) : bool :=
  match a with
  | ADD_OBJECT _ | UPDATE_OBJECT _ _ | DELETE_OBJECT _ | BRING_TO_FRONT _
  | SEND_TO_BACK _ | SET_VISIBILITY _ _ | SET_LOCK _ _ | SET_ZOOM _
  | SET_VIEWPORT _ _ | SET_PAN _ | CLEAR => true
  | _ => false
  end.

(** A reorder command whose id matches no object of the snapshot. *)
Definition reorder_miss (p : EditorPresent) (a : EditorAction) : bool :=
  match a with
  | BRING_TO_FRONT i | SEND_TO_BACK i =>
      bool_decide (find_by_id i (objects p) = None)
  | _ => false
  end.

(** The empty change set [{}]. *)
Definition no_changes : PartialObject :=
  mkPartialObject None None None None None None None None None None None None
    None None None None None None None None None None None None.

(** The same state with every object of its present unlocked. *)
Definition unlock_state (s : EditorState) : EditorState :=
  {| past := past s;
     present := with_objects (with_locked false <$> objects (present s))
                  (present s);
     future := future s |}.

(** The commands after which distinct ids are still distinct: the
    reducer compares ids but never checks that they are distinct. *)
Definition brings_no_clash (s : EditorState) (a : EditorAction) : Prop :=
  match a with
  | ADD_OBJECT object => id object ∉ id <$> objects (present s)
  | UPDATE_OBJECT i changes =>
      match p_id changes with
      | None => True
      | Some j => j = i ∨ j ∉ id <$> objects (present s)
      end
  | IMPORT_STATE p => NoDup (id <$> objects p)
  | UNDO => ∀ p, last (past s) = Some p → NoDup (id <$> objects p)
  | REDO => ∀ p, head (future s) = Some p → NoDup (id <$> objects p)
  | _ => True
  end.

(** The closed interval [0.2, 4] of zoom factors. *)
Definition zoom_in_range (z : number) : Prop :=
  Num.leb Num.lit_0_2 z = true ∧ Num.leb z (Num.of_Z 4) = true.

(** Commands that ask for a zoom that is a number, or import a snapshot
    whose zoom is within the interval. *)
Definition zoom_respecting (a : EditorAction) : Prop :=
  match a with
  | SET_ZOOM z | SET_VIEWPORT z _ => Num.is_nan z = false
  | IMPORT_STATE p => zoom_in_range (zoom p)
  | _ => True
  end.

(** Every snapshot the history holds has its zoom within the interval. *)
Definition all_zoom_in_range (s : EditorState) : Prop :=
  Forall (fun p => zoom_in_range (zoom p)) (past s)
  ∧ zoom_in_range (zoom (present s))
  ∧ Forall (fun p => zoom_in_range (zoom p)) (future s).

(** Every snapshot the history holds is normalized. *)
Definition all_normalized (s : EditorState) : Prop :=
  Forall (fun p => normalized (objects p)) (past s)
  ∧ normalized (objects (present s))
  ∧ Forall (fun p => normalized (objects p)) (future s).

(** A history with nothing to undo or redo around a given snapshot. *)
Definition fresh_history (p : EditorPresent) : EditorState :=
  {| past := []; present := p; future := [] |}.

(** ** Handlers of the view

    The handlers of [components/CanvasStage.tsx] and of the properties
    panel that compute a command from what the toolkit reports.  What the
    toolkit reports (the getters of a node, the pointer position, the
    number [parseFloat] read) is their input. *)

(** What [handleTransformEnd] reads from the transformed node. *)
Record Node := mkNode {
  node_x : number;
  node_y : number;
  node_rotation : number;
  node_scaleX : number;
  node_scaleY : number;
}.

(** [handleTransformEnd]: position and rotation are taken from the node;
    a region accumulates the scale, any other object turns the scale into
    a size of at least 8 and goes back to scale 1. *)
Definition handleTransformEnd (obj : EditorObject) (node : Node)
    : EditorAction :=
  let sx := node_scaleX node in
  let sy := node_scaleY node in
  let next :=
    if bool_decide (type obj = ObjectType.region) then
      mkPartialObject None None None
        (Some (node_x node)) (Some (node_y node)) None None
        (Some (node_rotation node)) None
        (Some (Some (Num.mul (default (Num.of_Z 1) (scaleX obj)) sx)))
        (Some (Some (Num.mul (default (Num.of_Z 1) (scaleY obj)) sy)))
        None None None None None None None None None None None None None
    else
      mkPartialObject None None None
        (Some (node_x node)) (Some (node_y node))
        (Some (Num.Math_max [Num.of_Z 8; Num.mul (width obj) sx]))
        (Some (Num.Math_max [Num.of_Z 8; Num.mul (height obj) sy]))
        (Some (node_rotation node)) None
        (Some (Some (Num.of_Z 1))) (Some (Some (Num.of_Z 1)))
        None None None None None None None None None None None None None in
  UPDATE_OBJECT (id obj) next.

(** [handleWheel]: no command without a stage or a pointer position
    ([None] for either); otherwise one zoom step of factor 1.05 around the
    pointer, the new pan computed from the clamped scale. *)
Definition handleWheel (p : EditorPresent) (pointer : option Point)
    (deltaY : number) : option EditorAction :=
  let oldScale := zoom p in
  match pointer with
  | None => None
  | Some pointer =>
      let scaleBy := Num.lit_1_05 in
      let direction :=
        if Num.ltb (Num.of_Z 0) deltaY then Num.of_Z (-1) else Num.of_Z 1 in
      let newScale :=
        if Num.ltb (Num.of_Z 0) direction then Num.mul oldScale scaleBy
        else Num.div oldScale scaleBy in
      let mousePointTo :=
        mkPoint (Num.div (Num.sub (px pointer) (px (pan p))) oldScale)
                (Num.div (Num.sub (py pointer) (py (pan p))) oldScale) in
      let clampedScale := clamp newScale Num.lit_0_2 (Num.of_Z 4) in
      let newPos :=
        mkPoint (Num.sub (px pointer) (Num.mul (px mousePointTo) clampedScale))
                (Num.sub (py pointer) (Num.mul (py mousePointTo) clampedScale)) in
      Some (SET_VIEWPORT clampedScale newPos)
  end.

(** The numeric inputs of the properties panel: [parsed] is what
    [parseFloat(e.target.value)] returned, and the command is
    [update(key, value)], that is [updateObject(selected.id, {[key]: value})]. *)
Definition update_width (selected : EditorObject) (parsed : number)
    : EditorAction :=
  UPDATE_OBJECT (id selected)
    (mkPartialObject None None None None None
       (Some (Num.Math_max [Num.of_Z 8; Num.or_else parsed (Num.of_Z 0)]))
       None None None None None None None None None None None None None None
       None None None None).

Definition update_height (selected : EditorObject) (parsed : number)
    : EditorAction :=
  UPDATE_OBJECT (id selected)
    (mkPartialObject None None None None None None
       (Some (Num.Math_max [Num.of_Z 8; Num.or_else parsed (Num.of_Z 0)]))
       None None None None None None None None None None None None None
       None None None None).

Definition update_opacity (selected : EditorObject) (parsed : number)
    : EditorAction :=
  UPDATE_OBJECT (id selected)
    (mkPartialObject None None None None None None None None None None None
       None None None
       (Some (Num.Math_min
                [Num.of_Z 1;
                 Num.Math_max [Num.of_Z 0; Num.or_else parsed (Num.of_Z 0)]]))
       None None None None None None None None None).

Definition update_strokeWidth (selected : EditorObject) (parsed : number)
    : EditorAction :=
  UPDATE_OBJECT (id selected)
    (mkPartialObject None None None None None None None None None None None
       None None
       (Some (Some (Num.Math_max
                      [Num.of_Z 0; Num.or_else parsed (Num.of_Z 0)])))
       None None None None None None None None None None).

(** ** Further predicates *)

(** The history as one sequence, oldest snapshot first. *)
Definition timeline (s : EditorState) : list EditorPresent :=
  past s ++ present s :: future s.

(** The selection is empty or names an object of the snapshot. *)
Definition selection_valid (p : EditorPresent) : Prop :=
  match selectedId p with
  | None => True
  | Some i => i ∈ id <$> objects p
  end.

Definition all_selection_valid (s : EditorState) : Prop :=
  Forall selection_valid (timeline s).

(** Commands that cannot leave the selection dangling: a selection of an
    object that is there, an update that renames nothing, an import of a
    snapshot whose selection is valid. *)
Definition selection_keeping (s : EditorState) (a : EditorAction) : Prop :=
  match a with
  | SET_SELECTED (Some i) => i ∈ id <$> objects (present s)
  | UPDATE_OBJECT _ changes => p_id changes = None
  | IMPORT_STATE p => selection_valid p
  | _ => True
  end.

(** A run of commands each of which keeps the selection, judged in the
    state it is applied to. *)
Fixpoint all_selection_keeping (s : EditorState) (actions : list EditorAction)
    : Prop :=
  match actions with
  | [] => True
  | a :: rest =>
      selection_keeping s a ∧ all_selection_keeping (editorReducer s a) rest
  end.

(** The text of a snapshot around a given array of objects:
    [JSON_stringify p] is [snapshot_text p (json_of_object <$> objects p)]. *)
Definition snapshot_text (p : EditorPresent) (objects_array : list json)
    : json :=
  JObject
    (put "objects" (Some (JArray objects_array))
    (put "selectedId" (Some (json_of_selectedId (selectedId p)))
    (put "zoom" (Some (json_of_number (zoom p)))
    (put "pan" (Some (json_of_point (pan p))) ∅)))).

(** A JSON object that has the keys and values [JSON.stringify] writes for
    an object, except perhaps at [zIndex]. *)
Definition same_keys_but_zIndex (o : EditorObject) (m : gmap string json)
    : Prop :=
  ∀ k, k ≠ "zIndex" → m !! k = object_fields o !! k.

(** Two lists of objects that differ in z-indices at most. *)
Definition same_but_zIndex (os os' : list EditorObject) : Prop :=
  with_zIndex (Num.of_Z 0) <$> os = with_zIndex (Num.of_Z 0) <$> os'.

(** No coordinate of the sequence is NaN. *)
Definition no_NaN (vs : list number) : Prop :=
  Forall (fun v => Num.is_nan v = false) vs.

(** ** Basic facts *)

Section Records.

Lemma with_zIndex_id z o : id (with_zIndex z o) = id o.
Proof. reflexivity. Qed.

Lemma with_zIndex_zIndex z o : zIndex (with_zIndex z o) = z.
Proof. reflexivity. Qed.

Lemma with_zIndex_same o : with_zIndex (zIndex o) o = o.
Proof. by destruct o. Qed.

Lemma with_zIndex_twice z z' o :
  with_zIndex z (with_zIndex z' o) = with_zIndex z o.
Proof. reflexivity. Qed.

Lemma with_objects_same p : with_objects (objects p) p = p.
Proof. by destruct p. Qed.

Lemma state_eta s :
  {| past := past s; present := present s; future := future s |} = s.
Proof. by destruct s. Qed.

End Records.

Section Normalize.

Implicit Types os : list EditorObject.

Lemma normalizeZIndex_length os : length (normalizeZIndex os) = length os.
Proof. apply length_imap. Qed.

Lemma normalizeZIndex_lookup os i :
  normalizeZIndex os !! i = with_zIndex (Num.of_nat i) <$> os !! i.
Proof. unfold normalizeZIndex. by rewrite list_lookup_imap. Qed.

Lemma normalizeZIndex_ids os : id <$> normalizeZIndex os = id <$> os.
Proof.
  unfold normalizeZIndex. rewrite fmap_imap.
  rewrite (imap_ext _ (fun _ => id)); [apply imap_const | done].
Qed.

Lemma normalizeZIndex_normalized os : normalized (normalizeZIndex os).
Proof.
  unfold normalized, normalizeZIndex.
  rewrite fmap_imap, length_imap.
  apply (imap_seq_0 (B:=number) os Num.of_nat).
Qed.

Lemma normalized_fixpoint os : normalized os → normalizeZIndex os = os.
Proof.
  intros Hn. apply list_eq. intros i.
  rewrite normalizeZIndex_lookup.
  destruct (os !! i) as [o|] eqn:Ho; [|done]. simpl. f_equal.
  assert (Hz : (zIndex <$> os) !! i = Some (zIndex o))
    by (by rewrite list_lookup_fmap, Ho).
  rewrite Hn, list_lookup_fmap in Hz.
  apply lookup_lt_Some in Ho.
  rewrite lookup_seq_lt in Hz by done. simpl in Hz.
  injection Hz as ->. apply with_zIndex_same.
Qed.

Lemma normalizeZIndex_idemp os :
  normalizeZIndex (normalizeZIndex os) = normalizeZIndex os.
Proof. apply normalized_fixpoint, normalizeZIndex_normalized. Qed.

Lemma normalizeZIndex_erase z os :
  normalizeZIndex (with_zIndex z <$> os) = normalizeZIndex os.
Proof. unfold normalizeZIndex. rewrite imap_fmap. by apply imap_ext. Qed.

Lemma erase_normalizeZIndex z os :
  with_zIndex z <$> normalizeZIndex os = with_zIndex z <$> os.
Proof.
  unfold normalizeZIndex. rewrite fmap_imap.
  rewrite (imap_ext _ (fun _ => with_zIndex z)); [apply imap_const | done].
Qed.

Lemma normalizeZIndex_same_but_zIndex os :
  same_but_zIndex (normalizeZIndex os) os.
Proof. apply erase_normalizeZIndex. Qed.

Lemma same_but_zIndex_normalizeZIndex os os' :
  same_but_zIndex os os' → normalizeZIndex os = normalizeZIndex os'.
Proof.
  intros H. rewrite <- (normalizeZIndex_erase (Num.of_Z 0) os), H.
  apply normalizeZIndex_erase.
Qed.

End Normalize.

Section IdLookup.

Implicit Types os : list EditorObject.

Lemma find_by_id_None i os :
  find_by_id i os = None ↔ ∀ o, o ∈ os → id o ≠ i.
Proof.
  unfold find_by_id. split.
  - intros Hf o Ho%list_elem_of_In.
    apply (List.find_none _ _ Hf) in Ho. by apply bool_decide_eq_false in Ho.
  - intros Hno. destruct (List.find _ os) as [o|] eqn:Hf; [|done].
    apply List.find_some in Hf as [Ho%list_elem_of_In Hid].
    apply bool_decide_eq_true in Hid. by apply Hno in Ho.
Qed.

Lemma find_by_id_Some i os o :
  find_by_id i os = Some o → o ∈ os ∧ id o = i.
Proof.
  unfold find_by_id. intros [Ho Hid]%List.find_some.
  split; [by apply list_elem_of_In | by apply bool_decide_eq_true in Hid].
Qed.

(** Mapping a change over the objects with a given id does nothing when
    no object has that id. *)
Lemma fmap_by_id_miss (f : EditorObject → EditorObject) i os :
  (∀ o, o ∈ os → id o ≠ i) →
  (fun obj => if bool_decide (id obj = i) then f obj else obj) <$> os = os.
Proof.
  intros Hno. induction os as [|o os IH]; [done|]. simpl.
  rewrite bool_decide_eq_false_2 by (apply Hno; left).
  f_equal. apply IH. intros o' Ho'. apply Hno. by right.
Qed.

End IdLookup.

(** ** History navigation *)

Section History.

Implicit Types (s : EditorState) (p : EditorPresent).

Lemma undo_snoc ps p cur fut :
  editorReducer {| past := ps ++ [p]; present := cur; future := fut |} UNDO
  = {| past := ps; present := p; future := cur :: fut |}.
Proof.
  simpl. rewrite last_snoc. f_equal.
  rewrite length_app. simpl.
  replace (length ps + 1 - 1) with (length ps) by lia.
  by rewrite take_app_length.
Qed.

Lemma undo_empty_past s : past s = [] → editorReducer s UNDO = s.
Proof. intros H. simpl. by rewrite H. Qed.

Lemma redo_empty_future s : future s = [] → editorReducer s REDO = s.
Proof. intros H. simpl. by rewrite H. Qed.

(** C1: undo followed by redo gives back the state it started from,
    whenever there was something to undo: past, present and future are all
    restored. *)
Theorem redo_undo_identity s :
  past s ≠ [] → editorReducer (editorReducer s UNDO) REDO = s.
Proof.
  destruct s as [ps cur fut]. simpl past. intros Hne.
  destruct ps as [|p0 ps _] using rev_ind; [done|].
  rewrite undo_snoc. reflexivity.
Qed.

Lemma redo_undo_identity_witness :
  let s := run initialState [DELETE_OBJECT "region-top"; SET_ZOOM (Num.of_Z 2)] in
  past s ≠ [] ∧ editorReducer (editorReducer s UNDO) REDO = s.
Proof.
  intros s. split; [discriminate|].
  apply (redo_undo_identity s). discriminate.
Defined.

(** What [pushHistory] does to the two stacks. *)
Lemma pushHistory_past s p : past (pushHistory s p) = past s ++ [present s].
Proof. reflexivity. Qed.

Lemma pushHistory_future s p : future (pushHistory s p) = [].
Proof. reflexivity. Qed.

(** Every history-producing command other than a reorder that finds no
    target goes through [pushHistory], with a snapshot computed from the
    old present alone. *)
Lemma history_push s a :
  history_producing a = true → reorder_miss (present s) a = false →
  editorReducer s a = pushHistory s (present (editorReducer (fresh_history (present s)) a)).
Proof.
  intros Ha Hm. destruct a; try discriminate; try reflexivity; simpl in *.
  all: apply bool_decide_eq_false in Hm.
  all: destruct (find_by_id i (objects (present s))); [reflexivity | done].
Qed.

(** A reorder command whose id is not found returns the state as it is. *)
Lemma reorder_miss_noop s a :
  reorder_miss (present s) a = true → editorReducer s a = s.
Proof.
  destruct a; try discriminate; simpl.
  all: intros ->%bool_decide_eq_true; reflexivity.
Qed.

(** C3, as amended: a history-producing command pushes the old present onto
    the end of past, installs the snapshot it computed from the old present,
    and leaves future empty, unless it is a reorder command whose id matches
    no object, which returns the state unchanged. *)
Theorem history_producing_pushes s a :
  history_producing a = true →
  if reorder_miss (present s) a then editorReducer s a = s
  else past (editorReducer s a) = past s ++ [present s]
       ∧ present (editorReducer s a)
         = present (editorReducer (fresh_history (present s)) a)
       ∧ future (editorReducer s a) = [].
Proof.
  intros Ha. destruct (reorder_miss (present s) a) eqn:Hm.
  - by apply reorder_miss_noop.
  - by rewrite (history_push s a Ha Hm).
Qed.

Lemma history_producing_pushes_witness :
  history_producing (SET_ZOOM (Num.of_Z 2)) = true
  ∧ past (editorReducer initialState (SET_ZOOM (Num.of_Z 2))) = [initialPresent]
  ∧ zoom (present (editorReducer initialState (SET_ZOOM (Num.of_Z 2))))
    = Num.of_Z 2
  ∧ future (editorReducer initialState (SET_ZOOM (Num.of_Z 2))) = [].
Proof.
  split; [reflexivity|].
  pose proof (history_producing_pushes initialState (SET_ZOOM (Num.of_Z 2))
                eq_refl) as H.
  simpl reorder_miss in H. cbv iota in H. destruct H as (Hp & Hc & Hf).
  split; [exact Hp|]. split; [|exact Hf].
  rewrite Hc. vm_compute. reflexivity.
Defined.

(** The claim of C3 as it is written fails: with a redo stack in place, a
    reorder-to-front of an id that no object has leaves that stack alone and
    pushes nothing. *)
Lemma history_producing_pushes_counterexample :
  let s := {| past := []; present := initialPresent;
              future := [with_zoom (Num.of_Z 2) initialPresent] |} in
  history_producing (BRING_TO_FRONT "ghost") = true
  ∧ ¬ (past (editorReducer s (BRING_TO_FRONT "ghost")) = past s ++ [present s]
       ∧ future (editorReducer s (BRING_TO_FRONT "ghost")) = []).
Proof.
  split; [reflexivity|]. intros [Hp Hf]. vm_compute in Hf. discriminate Hf.
Qed.

(** A run of selection changes only leaves the last selection behind. *)
Lemma run_set_selected s (ids : list (option string)) :
  run s (SET_SELECTED <$> ids)
  = {| past := past s;
       present := with_selectedId
                    (default (selectedId (present s)) (last ids)) (present s);
       future := future s |}.
Proof.
  revert s. induction ids as [|j ids IH]; intros s.
  - by destruct s as [? [] ?].
  - change (run s (SET_SELECTED <$> j :: ids))
      with (run (editorReducer s (SET_SELECTED j)) (SET_SELECTED <$> ids)).
    rewrite IH. simpl. unfold with_selectedId. simpl.
    destruct ids as [|k ids]; [reflexivity|].
    change (last (j :: k :: ids)) with (last (k :: ids)).
    by destruct (proj2 (last_is_Some (k :: ids)) ltac:(done)) as [z ->].
Qed.

(** C8, as amended: a selection change leaves past and future as they are
    and changes nothing of present but [selectedId]; the same holds for any
    run of selection changes, so a selection change itself puts no snapshot
    into past or future. *)
Theorem set_selected_frame s i (ids : list (option string)) :
  editorReducer s (SET_SELECTED i)
  = {| past := past s; present := with_selectedId i (present s);
       future := future s |}
  ∧ objects (present (editorReducer s (SET_SELECTED i))) = objects (present s)
  ∧ zoom (present (editorReducer s (SET_SELECTED i))) = zoom (present s)
  ∧ pan (present (editorReducer s (SET_SELECTED i))) = pan (present s)
  ∧ selectedId (present (editorReducer s (SET_SELECTED i))) = i
  ∧ past (run s (SET_SELECTED <$> ids)) = past s
  ∧ future (run s (SET_SELECTED <$> ids)) = future s
  ∧ with_selectedId (selectedId (present s))
      (present (run s (SET_SELECTED <$> ids))) = present s.
Proof.
  rewrite run_set_selected. simpl. repeat split.
  by destruct s as [? [] ?].
Qed.

(** The claim of C8 as it is written fails in its consequence: the next
    recorded command pushes the present with the selection it has, so past
    comes to hold a snapshot that differs from present in the selection
    alone, and undo then restores that selection and nothing else. *)
Lemma set_selected_frame_counterexample :
  let origin := mkPoint (Num.of_Z 0) (Num.of_Z 0) in
  let s := run initialState
             [SET_SELECTED (Some "region-top"); SET_PAN origin;
              SET_SELECTED None] in
  past s = [with_selectedId (Some "region-top") (present s)]
  ∧ selectedId (present s) = None
  ∧ selectedId (present (editorReducer s UNDO)) = Some "region-top"
  ∧ objects (present (editorReducer s UNDO)) = objects (present s)
  ∧ zoom (present (editorReducer s UNDO)) = zoom (present s)
  ∧ pan (present (editorReducer s UNDO)) = pan (present s)
  ∧ present (editorReducer s UNDO) ≠ present s.
Proof.
  repeat split. intros H. apply (f_equal selectedId) in H. discriminate H.
Qed.

(** What a later history-producing command pushes is the present it
    finds, with the selection made in the meantime. *)
Lemma selection_travels_with_next_push :
  let origin := mkPoint (Num.of_Z 0) (Num.of_Z 0) in
  past (run initialState
          [SET_PAN origin; SET_SELECTED (Some "region-top"); SET_PAN origin])
  = [initialPresent; with_selectedId (Some "region-top") initialPresent].
Proof. reflexivity. Qed.

End History.

(** ** Commands that name an object *)

Section ById.

Implicit Types (s : EditorState) (p : EditorPresent) (o : EditorObject).
Implicit Types os : list EditorObject.

(** C4, as amended: when no object has the id, update-attributes,
    set-visibility and set-lock raise no error and change no object, but
    they are still recorded: the old present is pushed onto past, future is
    emptied, and the installed present is the old one with its z-indices
    renormalized, which is the old present itself when it was normalized. *)
Theorem missing_id_still_recorded s i changes v l :
  (∀ o, o ∈ objects (present s) → id o ≠ i) →
  let p' := with_objects (normalizeZIndex (objects (present s))) (present s) in
  editorReducer s (UPDATE_OBJECT i changes) = pushHistory s p'
  ∧ editorReducer s (SET_VISIBILITY i v) = pushHistory s p'
  ∧ editorReducer s (SET_LOCK i l) = pushHistory s p'
  ∧ (normalized (objects (present s)) → p' = present s).
Proof.
  intros Hno p'. subst p'. simpl.
  rewrite !fmap_by_id_miss by done. repeat split.
  intros Hn. rewrite (normalized_fixpoint _ Hn). apply with_objects_same.
Qed.

Lemma initial_has_no_ghost : ∀ o, o ∈ objects (present initialState) → id o ≠ "ghost".
Proof. by apply find_by_id_None. Qed.

Lemma missing_id_still_recorded_witness :
  (∀ o, o ∈ objects (present initialState) → id o ≠ "ghost")
  ∧ editorReducer initialState (SET_LOCK "ghost" true)
    = pushHistory initialState
        (with_objects (normalizeZIndex (objects initialPresent))
           initialPresent).
Proof.
  split; [exact initial_has_no_ghost|].
  exact (proj1 (proj2 (proj2
    (missing_id_still_recorded initialState "ghost" no_changes true true
       initial_has_no_ghost)))).
Defined.

(** The claim of C4 as it is written fails: a set-lock on an id that no
    object has does not return the state it was given. *)
Lemma missing_id_noop_counterexample :
  (∀ o, o ∈ objects (present initialState) → id o ≠ "ghost")
  ∧ editorReducer initialState (SET_LOCK "ghost" true) ≠ initialState.
Proof.
  split; [apply initial_has_no_ghost|].
  intros H. apply (f_equal past) in H. discriminate H.
Qed.

(** Locking commutes with everything the reducer does to an object. *)
Lemma unlock_normalizeZIndex os :
  with_locked false <$> normalizeZIndex os
  = normalizeZIndex (with_locked false <$> os).
Proof.
  unfold normalizeZIndex. rewrite fmap_imap, imap_fmap. by apply imap_ext.
Qed.

Lemma unlock_filter_id i os :
  with_locked false <$> filter (fun o => id o ≠ i) os
  = filter (fun o => id o ≠ i) (with_locked false <$> os).
Proof.
  induction os as [|o os IH]; [done|]. rewrite fmap_cons, !filter_cons.
  change (id (with_locked false o)) with (id o).
  destruct (decide (id o ≠ i)); by rewrite ?fmap_cons, IH.
Qed.

Lemma unlock_merge i changes os :
  with_locked false <$>
    ((fun o => if bool_decide (id o = i) then merge o changes else o) <$> os)
  = with_locked false <$>
      ((fun o => if bool_decide (id o = i) then merge o changes else o)
         <$> (with_locked false <$> os)).
Proof.
  rewrite <- !list_fmap_compose. apply list_fmap_ext. intros _ o _. simpl.
  by destruct (bool_decide (id o = i)).
Qed.

(** C10: the reducer never looks at the lock flag.  Update-attributes and
    delete give the same objects, lock flags apart, whether the objects are
    locked or not; a locked object that has the id is merged with the
    changes by update, and no object with the id is left by delete. *)
Theorem locked_is_not_consulted s i changes k o :
  objects (present s) !! k = Some o → locked o = true → id o = i →
  with_locked false <$>
    objects (present (editorReducer s (UPDATE_OBJECT i changes)))
  = with_locked false <$>
      objects (present (editorReducer (unlock_state s)
                          (UPDATE_OBJECT i changes)))
  ∧ with_locked false <$> objects (present (editorReducer s (DELETE_OBJECT i)))
    = objects (present (editorReducer (unlock_state s) (DELETE_OBJECT i)))
  ∧ objects (present (editorReducer s (UPDATE_OBJECT i changes))) !! k
    = Some (with_zIndex (Num.of_nat k) (merge o changes))
  ∧ (∀ o', o' ∈ objects (present (editorReducer s (DELETE_OBJECT i))) →
           id o' ≠ i)
  ∧ length (objects (present (editorReducer s (DELETE_OBJECT i))))
    < length (objects (present s)).
Proof.
  intros Hk Hl Hi. simpl. repeat split.
  - rewrite !unlock_normalizeZIndex. f_equal. apply unlock_merge.
  - rewrite unlock_normalizeZIndex. f_equal. apply unlock_filter_id.
  - rewrite normalizeZIndex_lookup, list_lookup_fmap, Hk. simpl.
    by rewrite bool_decide_eq_true_2.
  - intros o' Ho'.
    assert (Hin : id o' ∈ id <$> normalizeZIndex
                    (filter (fun o => id o ≠ i) (objects (present s))))
      by (by apply list_elem_of_fmap_2).
    rewrite normalizeZIndex_ids in Hin.
    apply list_elem_of_fmap in Hin as (o'' & -> & Hin).
    by apply list_elem_of_filter in Hin as [? _].
  - rewrite normalizeZIndex_length.
    apply list_elem_of_lookup_2 in Hk.
    apply (length_filter_lt (fun o => id o ≠ i) _ o); [done|]. by intros ?.
Qed.

Lemma locked_is_not_consulted_witness :
  let s := editorReducer initialState (SET_LOCK "region-top" true) in
  let o := with_locked true
             (createRegion "region-top" "Top Panel"
                (Num.of_Z <$> [120; 60; 220; 60; 250; 150; 90; 150])%Z
                "#fef2f2" (Num.of_Z 0)) in
  objects (present s) !! 0 = Some o ∧ locked o = true
  ∧ objects (present (editorReducer s (UPDATE_OBJECT "region-top" no_changes)))
      !! 0 = Some (with_zIndex (Num.of_nat 0) (merge o no_changes))
  ∧ length (objects (present (editorReducer s (DELETE_OBJECT "region-top"))))
    < length (objects (present s)).
Proof.
  intros s o. split; [reflexivity|]. split; [reflexivity|].
  destruct (locked_is_not_consulted s "region-top" no_changes 0 o
              eq_refl eq_refl eq_refl) as (_ & _ & Hu & _ & Hd).
  split; [exact Hu | exact Hd].
Defined.

End ById.

(** ** Identifiers *)

Section Identifiers.

Implicit Types (s : EditorState) (p : EditorPresent) (o : EditorObject).
Implicit Types os : list EditorObject.

Lemma ids_filter_NoDup (P : EditorObject → Prop) `{!∀ o, Decision (P o)} os :
  NoDup (id <$> os) → NoDup (id <$> filter P os).
Proof.
  intros Hnd. eapply sublist_NoDup; [exact Hnd|].
  apply fmap_sublist, sublist_filter.
Qed.

Lemma ids_rest_fresh i os : i ∉ id <$> filter (fun o => id o ≠ i) os.
Proof.
  intros (o & -> & Ho)%list_elem_of_fmap.
  by apply list_elem_of_filter in Ho as [? _].
Qed.

Lemma ids_fmap_same (f : EditorObject → EditorObject) i os :
  (∀ o, id (f o) = id o) →
  id <$> ((fun o => if bool_decide (id o = i) then f o else o) <$> os)
  = id <$> os.
Proof.
  intros Hf. rewrite <- list_fmap_compose. apply list_fmap_ext.
  intros _ o _. simpl. by destruct (bool_decide (id o = i)).
Qed.

Lemma ids_merge i changes os :
  id <$> ((fun o => if bool_decide (id o = i) then merge o changes else o)
            <$> os)
  = (fun a => if bool_decide (a = i) then default a (p_id changes) else a)
      <$> (id <$> os).
Proof.
  rewrite <- !list_fmap_compose. apply list_fmap_ext.
  intros _ o _. simpl. by destruct (bool_decide (id o = i)).
Qed.

Lemma ids_merge_NoDup i changes os :
  match p_id changes with
  | None => True
  | Some j => j = i ∨ j ∉ id <$> os
  end →
  NoDup (id <$> os) →
  NoDup (id <$> ((fun o => if bool_decide (id o = i) then merge o changes
                           else o) <$> os)).
Proof.
  intros Hc Hnd. rewrite ids_merge.
  apply NoDup_fmap_2_strong; [|done].
  intros a b Ha Hb. destruct (p_id changes) as [j|]; simpl.
  - destruct Hc as [->|Hj]; repeat case_bool_decide; congruence.
  - by repeat case_bool_decide.
Qed.

(** C7, as amended: the reducer checks no identifier, so distinct ids stay
    distinct only when the command brings no clash: an added object has an
    id no object has; the changes of an update carry no id, the target id
    itself, or an id no object has; an imported collection has distinct
    ids; and the snapshot that undo or redo restores has distinct ids. *)
Theorem distinct_ids_preserved s a :
  NoDup (id <$> objects (present s)) →
  brings_no_clash s a →
  NoDup (id <$> objects (present (editorReducer s a))).
Proof.
  intros Hnd Hok. destruct a; simpl in *;
    rewrite ?normalizeZIndex_ids; try done.
  - rewrite fmap_app. apply NoDup_app. split; [done|]. split.
    + intros a Ha ->%list_elem_of_singleton. done.
    + apply NoDup_singleton.
  - by apply ids_merge_NoDup.
  - by apply ids_filter_NoDup.
  - destruct (find_by_id i _) as [t|] eqn:Hf; [|done].
    cbn [pushHistory with_objects present objects].
    apply find_by_id_Some in Hf as [_ Hid].
    rewrite ?normalizeZIndex_ids, fmap_app. apply NoDup_app.
    split; [by apply ids_filter_NoDup|]. split; [|apply NoDup_singleton].
    intros a Ha Hin%list_elem_of_singleton. simpl in Hin. subst a.
    rewrite Hid in Ha. by apply ids_rest_fresh in Ha.
  - destruct (find_by_id i _) as [t|] eqn:Hf; [|done].
    cbn [pushHistory with_objects present objects].
    apply find_by_id_Some in Hf as [_ Hid].
    rewrite ?normalizeZIndex_ids, ?fmap_cons. apply NoDup_cons.
    split; [rewrite Hid; apply ids_rest_fresh | by apply ids_filter_NoDup].
  - by rewrite ids_fmap_same.
  - by rewrite ids_fmap_same.
  - by apply (bool_decide_unpack _).
  - destruct (last (past s)) as [q|]; simpl; [by apply Hok | done].
  - destruct (future s) as [|q qs]; simpl; [done | by apply Hok].
  - by apply ids_filter_NoDup.
Qed.

End Identifiers.

Lemma distinct_ids_preserved_witness :
  let fresh_object :=
    createRegion "region-new" "New" [] "#ffffff" (Num.of_Z 0) in
  NoDup (id <$> objects (present initialState))
  ∧ brings_no_clash initialState (ADD_OBJECT fresh_object)
  ∧ NoDup (id <$> objects (present (editorReducer initialState
                                      (ADD_OBJECT fresh_object)))).
Proof.
  intros fresh_object.
  assert (Hnd : NoDup (id <$> objects (present initialState)))
    by (by apply (bool_decide_unpack _)).
  assert (Hok : brings_no_clash initialState (ADD_OBJECT fresh_object))
    by (by apply (bool_decide_unpack _)).
  split; [exact Hnd|]. split; [exact Hok|].
  exact (distinct_ids_preserved initialState (ADD_OBJECT fresh_object) Hnd Hok).
Defined.

(** The claim of C7 as it is written fails: adding a caller-supplied object
    that reuses an id gives two objects with that id. *)
Lemma distinct_ids_counterexample :
  let twin := createRegion "region-top" "Twin" [] "#ffffff" (Num.of_Z 0) in
  NoDup (id <$> objects (present initialState))
  ∧ ¬ NoDup (id <$> objects (present (editorReducer initialState
                                        (ADD_OBJECT twin)))).
Proof.
  split; [by apply (bool_decide_unpack _)|].
  intros H. apply (bool_decide_pack _) in H. vm_compute in H. exact H.
Qed.

(** Update-attributes with an id among its changes does the same. *)
Lemma update_id_clash :
  let changes := mkPartialObject (Some "region-bottom") None None None None
    None None None None None None None None None None None None None None
    None None None None None in
  ¬ NoDup (id <$> objects (present (editorReducer initialState
             (UPDATE_OBJECT "region-top" changes)))).
Proof.
  intros changes H. apply (bool_decide_pack _) in H. vm_compute in H. exact H.
Qed.

(** ** The normalization invariant *)

Section ZOrder.

Implicit Types (s : EditorState) (p : EditorPresent).

Lemma initialPresent_normalized : normalized (objects initialPresent).
Proof. reflexivity. Qed.

Lemma pushHistory_all_normalized s p :
  all_normalized s → normalized (objects p) →
  all_normalized (pushHistory s p).
Proof.
  intros (Hp & Hc & _) Hn. split; [|split]; simpl; [|done|constructor].
  apply Forall_app. split; [done|]. by constructor.
Qed.

Lemma editorReducer_all_normalized s a :
  all_normalized s → all_normalized (editorReducer s a).
Proof.
  intros Hs. pose proof Hs as (Hp & Hc & Hf).
  destruct a; simpl;
    try (apply pushHistory_all_normalized; [done|]; simpl;
         first [apply normalizeZIndex_normalized | done]).
  - exact Hs.
  - destruct (find_by_id i _); [|done].
    apply pushHistory_all_normalized; [done|]. apply normalizeZIndex_normalized.
  - destruct (find_by_id i _); [|done].
    apply pushHistory_all_normalized; [done|]. apply normalizeZIndex_normalized.
  - split; [constructor|]. split; [exact initialPresent_normalized|constructor].
  - split; [constructor|]. split; [apply normalizeZIndex_normalized|constructor].
  - destruct (last (past s)) as [q|] eqn:Hl; [|done].
    apply last_Some in Hl as [ps Hps]. rewrite Hps in *.
    apply Forall_app in Hp as [Hps' Hq]. rewrite Forall_singleton in Hq.
    split; [|split]; simpl; [|exact Hq|by constructor].
    rewrite length_app. simpl.
    replace (length ps + 1 - 1) with (length ps) by lia.
    by rewrite take_app_length.
  - destruct (future s) as [|q qs]; [done|].
    apply Forall_cons in Hf as [Hq Hqs].
    split; [|split]; simpl; [|done|by rewrite drop_0].
    apply Forall_app. split; [done|]. by constructor.
Qed.

Lemma run_all_normalized s actions :
  all_normalized s → all_normalized (run s actions).
Proof.
  revert s. induction actions as [|a actions IH]; intros s Hs; [done|].
  apply IH, editorReducer_all_normalized, Hs.
Qed.

Lemma initialState_all_normalized : all_normalized initialState.
Proof.
  split; [constructor|]. split; [exact initialPresent_normalized|constructor].
Qed.

(** C2: in every state reached from the initial state by a sequence of
    commands, and after any further command, the z-indices of the objects of
    present are 0, 1, ..., n-1 in array order, n being their number. *)
Theorem zIndex_dense_in_reachable_states (actions : list EditorAction) a :
  let s := run initialState actions in
  zIndex <$> objects (present s)
    = Num.of_nat <$> seq 0 (length (objects (present s)))
  ∧ zIndex <$> objects (present (editorReducer s a))
    = Num.of_nat <$> seq 0 (length (objects (present (editorReducer s a))))
  ∧ (∀ k o, objects (present (editorReducer s a)) !! k = Some o →
            zIndex o = Num.of_nat k).
Proof.
  intros s.
  assert (Hs : all_normalized s)
    by apply run_all_normalized, initialState_all_normalized.
  assert (Ha : all_normalized (editorReducer s a))
    by by apply editorReducer_all_normalized.
  split; [apply Hs|]. split; [apply Ha|].
  intros k o Hk. destruct Ha as (_ & Hn & _). unfold normalized in Hn.
  assert (Hz : (zIndex <$> objects (present (editorReducer s a))) !! k
               = Some (zIndex o)) by (by rewrite list_lookup_fmap, Hk).
  rewrite Hn, list_lookup_fmap in Hz. apply lookup_lt_Some in Hk.
  rewrite lookup_seq_lt in Hz by done. by injection Hz.
Qed.

End ZOrder.

(** ** Numbers: comparison and clamping *)

Section Clamp.

Implicit Types a b v : number.

(** Comparing the other way round gives the opposite answer. *)
Lemma SFcompare_antisym a b :
  SFcompare b a = CompOpp <$> SFcompare a b.
Proof.
  destruct a as [[]|[]| |[] ma ea], b as [[]|[]| |[] mb eb]; try reflexivity.
  all: simpl; rewrite (Z.compare_antisym ea eb);
    destruct (ea ?= eb)%Z; simpl; try reflexivity.
  all: assert (Hm : Pos.compare_cont Eq mb ma
                    = CompOpp (Pos.compare_cont Eq ma mb))
         by (symmetry; apply (Pos.compare_cont_antisym ma mb Eq)).
  all: rewrite Hm; by destruct (Pos.compare_cont Eq ma mb).
Qed.

(** Among numbers other than NaN, "not below" is "above or equal". *)
Lemma not_ltb_leb a b :
  Num.is_nan a = false → Num.is_nan b = false →
  Num.ltb a b = false → Num.leb b a = true.
Proof.
  unfold Num.ltb, Num.leb, SFltb, SFleb. intros Ha Hb.
  rewrite (SFcompare_antisym a b).
  destruct (SFcompare a b) as [[]|] eqn:Hc; simpl; try done.
  destruct a as [[]|[]| |[] ma ea], b as [[]|[]| |[] mb eb];
    simpl in *; discriminate.
Qed.

Lemma ltb_leb a b : Num.ltb a b = true → Num.leb a b = true.
Proof.
  unfold Num.ltb, Num.leb, SFltb, SFleb.
  by destruct (SFcompare a b) as [[]|].
Qed.

Lemma max_step_neg_Infinity v :
  Num.is_nan v = false → Num.max_step Num.neg_Infinity v = v.
Proof. by destruct v as [[]|[]| |[] m e]. Qed.

Lemma min_step_Infinity v :
  Num.is_nan v = false → Num.min_step Num.Infinity v = v.
Proof. by destruct v as [[]|[]| |[] m e]. Qed.

(** [clamp] at the bounds the reducer uses, for a request that is a number:
    the request itself when it lies between them, else the bound it passed. *)
Lemma clamp_zoom_cases v :
  Num.is_nan v = false →
  clamp v Num.lit_0_2 (Num.of_Z 4)
  = if Num.ltb v Num.lit_0_2 then Num.lit_0_2
    else if Num.ltb (Num.of_Z 4) v then Num.of_Z 4 else v.
Proof.
  intros Hv. unfold clamp, Num.Math_min, Num.Math_max. simpl foldl.
  rewrite (max_step_neg_Infinity v Hv).
  assert (Hm : Num.max_step v Num.lit_0_2
               = if Num.ltb v Num.lit_0_2 then Num.lit_0_2 else v).
  { unfold Num.max_step. rewrite Hv. simpl. by destruct (Num.is_neg_zero v). }
  rewrite Hm. destruct (Num.ltb v Num.lit_0_2) eqn:Hlo.
  - reflexivity.
  - rewrite (min_step_Infinity v Hv). unfold Num.min_step. rewrite Hv.
    simpl. reflexivity.
Qed.

Lemma clamp_zoom_in_range v :
  Num.is_nan v = false → zoom_in_range (clamp v Num.lit_0_2 (Num.of_Z 4)).
Proof.
  intros Hv. rewrite (clamp_zoom_cases v Hv). unfold zoom_in_range.
  destruct (Num.ltb v Num.lit_0_2) eqn:Hlo; [done|].
  destruct (Num.ltb (Num.of_Z 4) v) eqn:Hhi; [done|].
  split; by apply not_ltb_leb.
Qed.

(** NaN goes through [clamp] unchanged. *)
Lemma clamp_NaN lo hi : clamp Num.NaN lo hi = Num.NaN.
Proof. unfold clamp. simpl. by destruct lo, hi. Qed.

End Clamp.

(** ** The zoom bound *)

Section Zoom.

Implicit Types (s : EditorState) (p : EditorPresent).

Lemma pushHistory_all_zoom s p :
  all_zoom_in_range s → zoom_in_range (zoom p) →
  all_zoom_in_range (pushHistory s p).
Proof.
  intros (Hp & Hc & _) Hn. split; [|split]; simpl; [|done|constructor].
  apply Forall_app. split; [done|]. by constructor.
Qed.

Lemma editorReducer_all_zoom s a :
  zoom_respecting a → all_zoom_in_range s →
  all_zoom_in_range (editorReducer s a).
Proof.
  intros Ha Hs. pose proof Hs as (Hp & Hc & Hf).
  destruct a; simpl in *;
    try (apply pushHistory_all_zoom; [done|]; simpl;
         first [by apply clamp_zoom_in_range | done]).
  - exact Hs.
  - destruct (find_by_id i _); [|done]. by apply pushHistory_all_zoom.
  - destruct (find_by_id i _); [|done]. by apply pushHistory_all_zoom.
  - split; [constructor|]. split; [done|constructor].
  - split; [constructor|]. split; [done|constructor].
  - destruct (last (past s)) as [q|] eqn:Hl; [|done].
    apply last_Some in Hl as [ps Hps]. rewrite Hps in *.
    apply Forall_app in Hp as [Hps' Hq]. rewrite Forall_singleton in Hq.
    split; [|split]; simpl; [|exact Hq|by constructor].
    rewrite length_app. simpl.
    replace (length ps + 1 - 1) with (length ps) by lia.
    by rewrite take_app_length.
  - destruct (future s) as [|q qs]; [done|].
    apply Forall_cons in Hf as [Hq Hqs].
    split; [|split]; simpl; [|done|by rewrite drop_0].
    apply Forall_app. split; [done|]. by constructor.
Qed.

Lemma run_all_zoom s actions :
  Forall zoom_respecting actions → all_zoom_in_range s →
  all_zoom_in_range (run s actions).
Proof.
  revert s. induction actions as [|a actions IH]; intros s Ha Hs; [done|].
  apply Forall_cons in Ha as [Ha Has].
  by apply IH, editorReducer_all_zoom.
Qed.

(** C6, as amended: set-zoom and set-viewport store
    clamp(requested, 0.2, 4) and import stores the zoom it is given, not
    clamped; so the zoom of present lies in [0.2, 4] in every state reached
    from the initial state by commands whose zoom requests are numbers (not
    NaN) and whose imported snapshots have a zoom within [0.2, 4]. *)
Theorem zoom_bounded_in_reachable_states (actions : list EditorAction) :
  Forall zoom_respecting actions →
  (Num.leb Num.lit_0_2 (zoom (present (run initialState actions))) = true
   ∧ Num.leb (zoom (present (run initialState actions))) (Num.of_Z 4) = true)
  ∧ (∀ s z, zoom (present (editorReducer s (SET_ZOOM z)))
            = clamp z Num.lit_0_2 (Num.of_Z 4))
  ∧ (∀ s z q, zoom (present (editorReducer s (SET_VIEWPORT z q)))
              = clamp z Num.lit_0_2 (Num.of_Z 4))
  ∧ (∀ s p, zoom (present (editorReducer s (IMPORT_STATE p))) = zoom p).
Proof.
  intros Ha. split; [|done].
  assert (Hs : all_zoom_in_range initialState).
  { split; [constructor|]. split; [done|constructor]. }
  by destruct (run_all_zoom initialState actions Ha Hs) as (_ & Hc & _).
Qed.

Lemma zoom_bounded_witness :
  let actions := [SET_ZOOM (Num.of_Z 10); SET_ZOOM (Num.of_Z (-1)); UNDO;
                  SET_VIEWPORT Num.Infinity (mkPoint (Num.of_Z 5) (Num.of_Z 7))] in
  Forall zoom_respecting actions
  ∧ Num.leb Num.lit_0_2 (zoom (present (run initialState actions))) = true
  ∧ Num.leb (zoom (present (run initialState actions))) (Num.of_Z 4) = true.
Proof.
  intros actions.
  assert (Hok : Forall zoom_respecting actions) by (repeat constructor).
  split; [exact Hok|].
  exact (proj1 (zoom_bounded_in_reachable_states actions Hok)).
Defined.

(** The claim of C6 as it is written fails: import stores a zoom of 10. *)
Lemma zoom_bound_counterexample :
  let s := run initialState
             [IMPORT_STATE (with_zoom (Num.of_Z 10) initialPresent)] in
  zoom (present s) = Num.of_Z 10
  ∧ Num.leb (zoom (present s)) (Num.of_Z 4) = false.
Proof. split; reflexivity. Qed.

(** A set-zoom whose request is NaN stores NaN. *)
Lemma set_zoom_NaN s :
  zoom (present (editorReducer s (SET_ZOOM Num.NaN))) = Num.NaN.
Proof. reflexivity. Qed.

End Zoom.

(** ** Regions *)



(** A single point pair does give a region of size zero. *)
Example createRegion_one_point :
  let r := createRegion "r" "Dot" [Num.of_Z 7; Num.of_Z 9] "#ffffff"
             (Num.of_Z 0) in
  width r = Num.of_Z 0 ∧ height r = Num.of_Z 0.
Proof. split; reflexivity. Qed.

(** An unpaired trailing coordinate is read with a missing partner: the
    height is NaN. *)
Example createRegion_odd_points :
  let r := createRegion "r" "Odd" (Num.of_Z <$> [1; 2; 5])%Z "#ffffff"
             (Num.of_Z 0) in
  width r = Num.of_Z 4 ∧ height r = Num.NaN.
Proof. split; reflexivity. Qed.

(** The bounds of the four regions the editor starts with. *)
Lemma initialRegions_sizes :
  (fun o => (width o, height o)) <$> initialRegions
  = [ (Num.of_Z 160, Num.of_Z 90); (Num.of_Z 130, Num.of_Z 90);
      (Num.of_Z 40, Num.of_Z 40); (Num.of_Z 40, Num.of_Z 40) ].
Proof. reflexivity. Qed.

(** ** The JSON round trip *)

Section RoundTrip.

Implicit Types (m : gmap string json) (k : string) (n : number).

Lemma lookup_put_ne k k' v m : k ≠ k' → put k v m !! k' = m !! k'.
Proof. intros Hk. destruct v; simpl; [by apply lookup_insert_ne | done]. Qed.

Lemma lookup_put_eq k v m : m !! k = None → put k v m !! k = v.
Proof. intros Hm. destruct v; simpl; [by apply lookup_insert_eq | done]. Qed.

Lemma required_Some {T} (read : json → option T) j :
  required read (Some j) = read j.
Proof. reflexivity. Qed.

Lemma optional_fmap {T} (read : json → option T) (enc : T → json)
    (v : option T) :
  (∀ t, v = Some t → read (enc t) = Some t) →
  optional read (enc <$> v) = Some v.
Proof.
  intros Hr. destruct v as [t|]; simpl; [|done]. by rewrite (Hr t eq_refl).
Qed.

Lemma bind_Some_l {A B} (f : A → option B) (a : A) : Some a ≫= f = f a.
Proof. reflexivity. Qed.

Lemma as_number_json_of_number n :
  json_number n = true → as_number (json_of_number n) = Some n.
Proof. by destruct n as [[]|[]| |[] mn en]. Qed.

Lemma as_string_JString (s : string) : as_string (JString s) = Some s.
Proof. reflexivity. Qed.

Lemma as_bool_JBool (b : bool) : as_bool (JBool b) = Some b.
Proof. reflexivity. Qed.

Lemma as_type_json_of_type t : as_type (json_of_type t) = Some t.
Proof. by destruct t. Qed.

Lemma as_align_json_of_align a : as_align (json_of_align a) = Some a.
Proof. by destruct a. Qed.

Lemma as_points_json_of_points (ps : list number) :
  forallb json_number ps = true → as_points (json_of_points ps) = Some ps.
Proof.
  intros Hps. simpl. apply mapM_fmap_Forall_Some.
  apply Forall_forall. intros n Hn%list_elem_of_In.
  apply as_number_json_of_number.
  by apply (proj1 (forallb_forall _ _) Hps).
Qed.

Lemma as_selectedId_json_of_selectedId (s : option string) :
  as_selectedId (json_of_selectedId s) = Some s.
Proof. by destruct s. Qed.

Lemma optional_number_ok (v : option number) :
  from_option json_number true v = true →
  ∀ t, v = Some t → as_number (json_of_number t) = Some t.
Proof. intros Hv t ->. by apply as_number_json_of_number. Qed.

Lemma optional_points_ok (v : option (list number)) :
  from_option (forallb json_number) true v = true →
  ∀ t, v = Some t → as_points (json_of_points t) = Some t.
Proof. intros Hv t ->. by apply as_points_json_of_points. Qed.

(** Reading one key of an object that was written key by key. *)
Ltac skip_keys :=
  repeat match goal with
         | |- context [put ?k ?v ?m !! ?k'] =>
             rewrite (lookup_put_ne k k' v m) by done
         end.
Ltac key_absent := skip_keys; apply lookup_empty.
Ltac key_found := skip_keys; apply lookup_put_eq; key_absent.
Ltac read_required lem :=
  match type of lem with
  | ?r ?j = _ => rewrite (required_Some r j), lem, bind_Some_l; cbv beta
  end.
Ltac read_optional enc lem :=
  rewrite (optional_fmap _ enc _ lem), bind_Some_l; cbv beta.

Lemma object_fields_lookup (o : EditorObject) :
  let m := object_fields o in
  m !! "id" = Some (JString (id o))
  ∧ m !! "type" = Some (json_of_type (type o))
  ∧ m !! "name" = Some (JString (name o))
  ∧ m !! "x" = Some (json_of_number (x o))
  ∧ m !! "y" = Some (json_of_number (y o))
  ∧ m !! "width" = Some (json_of_number (width o))
  ∧ m !! "height" = Some (json_of_number (height o))
  ∧ m !! "rotation" = Some (json_of_number (rotation o))
  ∧ m !! "zIndex" = Some (json_of_number (zIndex o))
  ∧ m !! "scaleX" = (json_of_number <$> scaleX o)
  ∧ m !! "scaleY" = (json_of_number <$> scaleY o)
  ∧ m !! "fill" = (JString <$> fill o)
  ∧ m !! "stroke" = (JString <$> stroke o)
  ∧ m !! "strokeWidth" = (json_of_number <$> strokeWidth o)
  ∧ m !! "opacity" = Some (json_of_number (opacity o))
  ∧ m !! "visible" = Some (JBool (visible o))
  ∧ m !! "locked" = Some (JBool (locked o))
  ∧ m !! "patternId" = (JString <$> patternId o)
  ∧ m !! "points" = (json_of_points <$> points o)
  ∧ m !! "text" = (JString <$> text o)
  ∧ m !! "fontSize" = (json_of_number <$> fontSize o)
  ∧ m !! "fontFamily" = (JString <$> fontFamily o)
  ∧ m !! "align" = (json_of_align <$> align o)
  ∧ m !! "src" = (JString <$> src o).
Proof. intros m. subst m. unfold object_fields. repeat split; key_found. Qed.

(** Reading an object whose keys are those [JSON.stringify] writes,
    whatever is at [zIndex]: the object comes back, with what was read at
    [zIndex]. *)
Lemma as_object_any_zIndex (o : EditorObject) (m : gmap string json) :
  same_keys_but_zIndex o m → json_object o = true →
  as_object (JObject m)
  = Some (with_zIndex (default Num.NaN (m !! "zIndex" ≫= as_number)) o).
Proof.
  unfold json_object. rewrite !andb_true_iff.
  intros Hm ((((((((((Hx & Hy) & Hw) & Hh) & Hr) & Hop) & Hsx) & Hsy)
                & Hsw) & Hfs) & Hps).
  apply as_number_json_of_number in Hx, Hy, Hw, Hh, Hr, Hop.
  unfold as_object.
  repeat match goal with
         | |- context [m !! ?k] => rewrite (Hm k) by done
         end.
  destruct (object_fields_lookup o)
    as (-> & -> & -> & -> & -> & -> & -> & -> & _ & -> & -> & -> & -> & ->
        & -> & -> & -> & -> & -> & -> & -> & -> & -> & ->).
  read_required (as_string_JString (id o)).
  read_required (as_type_json_of_type (type o)).
  read_required (as_string_JString (name o)).
  read_required Hx. read_required Hy. read_required Hw. read_required Hh.
  read_required Hr. rewrite bind_Some_l. cbv beta.
  read_optional json_of_number (optional_number_ok _ Hsx).
  read_optional json_of_number (optional_number_ok _ Hsy).
  read_optional JString (fun t (_ : fill o = Some t) => as_string_JString t).
  read_optional JString (fun t (_ : stroke o = Some t) => as_string_JString t).
  read_optional json_of_number (optional_number_ok _ Hsw).
  read_required Hop.
  read_required (as_bool_JBool (visible o)).
  read_required (as_bool_JBool (locked o)).
  read_optional JString
    (fun t (_ : patternId o = Some t) => as_string_JString t).
  read_optional json_of_points (optional_points_ok _ Hps).
  read_optional JString (fun t (_ : text o = Some t) => as_string_JString t).
  read_optional json_of_number (optional_number_ok _ Hfs).
  read_optional JString
    (fun t (_ : fontFamily o = Some t) => as_string_JString t).
  read_optional json_of_align
    (fun t (_ : align o = Some t) => as_align_json_of_align t).
  read_optional JString (fun t (_ : src o = Some t) => as_string_JString t).
  reflexivity.
Qed.

Lemma same_keys_but_zIndex_refl (o : EditorObject) :
  same_keys_but_zIndex o (object_fields o).
Proof. by intros k _. Qed.

(** Reading an array of such objects gives the objects back, z-indices
    apart. *)
Lemma mapM_as_object_any_zIndex (os : list EditorObject)
    (ms : list (gmap string json)) :
  forallb json_object os = true → Forall2 same_keys_but_zIndex os ms →
  ∃ os', mapM as_object (JObject <$> ms) = Some os' ∧ same_but_zIndex os' os.
Proof.
  intros Hos Hms. induction Hms as [|o m os ms Hm _ IH].
  - by exists [].
  - simpl in Hos. apply andb_true_iff in Hos as [Ho Hos].
    destruct (IH Hos) as (os' & Hos' & Hsame).
    exists (with_zIndex (default Num.NaN (m !! "zIndex" ≫= as_number)) o
            :: os').
    split.
    + rewrite fmap_cons. cbn [mapM].
      rewrite (as_object_any_zIndex o m Hm Ho), bind_Some_l, Hos'.
      reflexivity.
    + unfold same_but_zIndex in *. rewrite !fmap_cons, Hsame. reflexivity.
Qed.

Lemma as_point_json_of_point (q : Point) :
  json_number (px q) = true → json_number (py q) = true →
  as_point (json_of_point q) = Some q.
Proof.
  intros Hx%as_number_json_of_number Hy%as_number_json_of_number.
  unfold as_point, json_of_point.
  replace (_ !! "x") with (Some (json_of_number (px q))) by (symmetry; key_found).
  replace (_ !! "y") with (Some (json_of_number (py q))) by (symmetry; key_found).
  read_required Hx. read_required Hy. by destruct q.
Qed.

(** Parsing the text of a snapshot around any array of objects that have
    the keys [JSON.stringify] writes, whatever their [zIndex]. *)
Lemma JSON_parse_snapshot_text (p : EditorPresent)
    (ms : list (gmap string json)) :
  valid_snapshot p = true → Forall2 same_keys_but_zIndex (objects p) ms →
  ∃ os', JSON_parse (snapshot_text p (JObject <$> ms))
         = Some (mkParsed (Some os') (selectedId p) (zoom p) (pan p))
         ∧ same_but_zIndex os' (objects p).
Proof.
  unfold valid_snapshot. rewrite !andb_true_iff.
  intros (((Hos & Hz) & Hpx) & Hpy) Hms.
  destruct (mapM_as_object_any_zIndex _ _ Hos Hms) as (os' & Hobjs & Hsame).
  exists os'. split; [|exact Hsame].
  apply as_number_json_of_number in Hz.
  pose proof (as_point_json_of_point (pan p) Hpx Hpy) as Hpan.
  unfold JSON_parse, snapshot_text.
  replace (put "objects" _ _ !! "objects")
    with (Some (JArray (JObject <$> ms)))
    by (symmetry; apply lookup_insert_eq).
  unfold as_objects. rewrite Hobjs. simpl fmap. rewrite bind_Some_l.
  replace (_ !! "selectedId")
    with (Some (json_of_selectedId (selectedId p))) by (symmetry; key_found).
  replace (_ !! "zoom") with (Some (json_of_number (zoom p)))
    by (symmetry; key_found).
  replace (_ !! "pan") with (Some (json_of_point (pan p)))
    by (symmetry; key_found).
  read_required (as_selectedId_json_of_selectedId (selectedId p)).
  read_required Hz. read_required Hpan. reflexivity.
Qed.

(** [parseState] on such a text: the snapshot, renormalized. *)
Lemma parseState_snapshot_text (p : EditorPresent)
    (ms : list (gmap string json)) :
  valid_snapshot p = true → Forall2 same_keys_but_zIndex (objects p) ms →
  parseState (snapshot_text p (JObject <$> ms))
  = Some (with_objects (normalizeZIndex (objects p)) p).
Proof.
  intros Hv Hms.
  destruct (JSON_parse_snapshot_text p ms Hv Hms) as (os' & Hp & Hsame).
  unfold parseState. rewrite Hp.
  rewrite <- (same_but_zIndex_normalizeZIndex _ _ Hsame). reflexivity.
Qed.

Lemma JSON_stringify_snapshot_text (p : EditorPresent) :
  JSON_stringify p
  = snapshot_text p (JObject <$> (object_fields <$> objects p)).
Proof.
  unfold JSON_stringify, snapshot_text, json_of_object.
  by rewrite <- list_fmap_compose.
Qed.

Lemma parseState_stringify (p : EditorPresent) :
  valid_snapshot p = true →
  parseState (serializeState p)
  = Some (with_objects (normalizeZIndex (objects p)) p).
Proof.
  intros Hv. unfold serializeState. rewrite JSON_stringify_snapshot_text.
  apply parseState_snapshot_text; [done|].
  apply Forall2_fmap_r, Forall_Forall2_diag, Forall_forall.
  intros o _. apply same_keys_but_zIndex_refl.
Qed.

(** C5: for a snapshot that JSON can carry (its numbers, the z-indices
    aside, are finite and none is negative zero), parsing what
    [serializeState] wrote succeeds and gives the snapshot with its
    z-indices renormalized: the selection, the zoom and the pan are the
    same, the objects are as many, in the same order and with the same
    fields except that the z-index of the object at position k is k.
    When the snapshot is normalized, the round trip gives the snapshot
    itself. *)
Theorem parseState_serializeState (s : EditorPresent) :
  valid_snapshot s = true →
  ∃ p, parseState (serializeState s) = Some p
       ∧ selectedId p = selectedId s ∧ zoom p = zoom s ∧ pan p = pan s
       ∧ length (objects p) = length (objects s)
       ∧ zIndex <$> objects p = Num.of_nat <$> seq 0 (length (objects s))
       ∧ (∀ (j : nat) o, objects s !! j = Some o →
                 objects p !! j = Some (with_zIndex (Num.of_nat j) o))
       ∧ (normalized (objects s) → p = s).
Proof.
  intros Hv. exists (with_objects (normalizeZIndex (objects s)) s).
  split; [by apply parseState_stringify|].
  cbn [with_objects objects selectedId zoom pan].
  split; [done|]. split; [done|]. split; [done|].
  split; [apply normalizeZIndex_length|]. split.
  - rewrite <- (normalizeZIndex_length (objects s)).
    apply normalizeZIndex_normalized.
  - split.
    + intros j o Hj. by rewrite normalizeZIndex_lookup, Hj.
    + intros Hn. by rewrite (normalized_fixpoint _ Hn), with_objects_same.
Qed.

Lemma parseState_serializeState_witness :
  let corners := (Num.of_Z <$> [1; 2; 5; 9])%Z in
  let s := mkEditorPresent
             [createRegion "a" "A" corners "#ffffff" (Num.of_Z 7);
              createRegion "b" "B" corners "#000000" Num.NaN;
              createRegion "c" "C" corners "#00ff00" (Num.of_Z 0)]
             (Some "b") (Num.of_Z 2)
             (mkPoint (Num.of_Z 3) (Num.of_Z (-4))) in
  valid_snapshot s = true
  ∧ ∃ p, parseState (serializeState s) = Some p
         ∧ zIndex <$> objects p = [Num.of_Z 0; Num.of_Z 1; Num.of_Z 2]
         ∧ id <$> objects p !! 1 = Some "b"
         ∧ selectedId p = Some "b".
Proof.
  intros corners s. split; [reflexivity|].
  destruct (parseState_serializeState s eq_refl)
    as (p & Hp & Hsel & _ & _ & _ & Hz & Hk & _).
  exists p. split; [exact Hp|]. split; [exact Hz|]. split; [|exact Hsel].
  specialize (Hk 1 (createRegion "b" "B" corners "#000000" Num.NaN) eq_refl).
  by rewrite Hk.
Defined.

(** A number that is not finite does not survive the text: it is written
    [null], which is not a number when read back. *)
Lemma infinite_pan_not_restored :
  let s := with_pan (mkPoint Num.Infinity (Num.of_Z 0)) initialPresent in
  parseState (serializeState s) = None.
Proof. vm_compute. reflexivity. Qed.

(** Text without an [objects] key reads as a snapshot with no object. *)
Example parseState_objects_missing :
  parseState (JObject (put "selectedId" (Some JNull)
                      (put "zoom" (Some (JNumber (Num.of_Z 1)))
                      (put "pan" (Some (json_of_point
                                          (mkPoint (Num.of_Z 0) (Num.of_Z 0))))
                         ∅))))
  = Some (mkEditorPresent [] None (Num.of_Z 1)
            (mkPoint (Num.of_Z 0) (Num.of_Z 0))).
Proof. vm_compute. reflexivity. Qed.

End RoundTrip.

(** ** Scenarios *)

Section Scenarios.

(** [setZoom(10)] stores 4 and [setZoom(-1)] stores 0.2. *)
Example scenario_zoom_clamps :
  zoom (present (editorReducer initialState (SET_ZOOM (Num.of_Z 10))))
  = Num.of_Z 4
  ∧ zoom (present (editorReducer initialState (SET_ZOOM (Num.of_Z (-1)))))
    = Num.lit_0_2.
Proof. split; reflexivity. Qed.

(** Bringing the first object to the front moves it to the end; undo puts
    the order back and redo moves it again. *)
Example scenario_bring_to_front :
  let s1 := editorReducer initialState (BRING_TO_FRONT "region-top") in
  id <$> objects (present s1)
  = ["region-bottom"; "region-left-strap"; "region-right-strap"; "region-top"]
  ∧ zIndex <$> objects (present s1) = Num.of_Z <$> [0; 1; 2; 3]%Z
  ∧ editorReducer s1 UNDO
    = {| past := []; present := initialPresent;
         future := [present s1] |}
  ∧ editorReducer (editorReducer s1 UNDO) REDO = s1.
Proof. repeat split. Qed.

(** Add, delete, undo: the state after the add comes back, with the added
    object there and selected. *)
Example scenario_add_delete_undo :
  let a := with_locked false
             (createRegion "rect-1" "Rect" [] "#bbf7d0" (Num.of_Z 0)) in
  let s1 := editorReducer initialState (ADD_OBJECT a) in
  let s2 := editorReducer s1 (DELETE_OBJECT "rect-1") in
  present (editorReducer s2 UNDO) = present s1
  ∧ selectedId (present s1) = Some "rect-1"
  ∧ selectedId (present s2) = None
  ∧ length (objects (present s1)) = 5
  ∧ length (objects (present s2)) = 4.
Proof. repeat split. Qed.

(** Clear keeps the regions only, renormalized, and drops the selection. *)
Example scenario_clear :
  let shape i t := merge (createRegion i i [] "#38bdf8" (Num.of_Z 0))
    (mkPartialObject None (Some t) None None None None None None None None
       None None None None None None None None None None None None None None) in
  let s := run initialState
             [ADD_OBJECT (shape "rect-1" ObjectType.rect);
              ADD_OBJECT (shape "text-2" ObjectType.text);
              DELETE_OBJECT "region-top"; DELETE_OBJECT "region-bottom";
              ADD_OBJECT (shape "circle-3" ObjectType.circle); CLEAR] in
  id <$> objects (present s) = ["region-left-strap"; "region-right-strap"]
  ∧ zIndex <$> objects (present s) = Num.of_Z <$> [0; 1]%Z
  ∧ selectedId (present s) = None.
Proof. repeat split. Qed.

End Scenarios.

(** ** More on history navigation *)

Section Navigation.

Implicit Types (s : EditorState) (p : EditorPresent).

Lemma redo_cons ps cur q qs :
  editorReducer {| past := ps; present := cur; future := q :: qs |} REDO
  = {| past := ps ++ [cur]; present := q; future := qs |}.
Proof. reflexivity. Qed.

(** X1: redo followed by undo gives back the state it started from, whenever
    there was something to redo. *)
Theorem undo_redo_identity s :
  future s ≠ [] → editorReducer (editorReducer s REDO) UNDO = s.
Proof.
  destruct s as [ps cur [|q qs]]; simpl future; [done|]. intros _.
  by rewrite redo_cons, undo_snoc.
Qed.

Lemma undo_redo_identity_witness :
  let s := run initialState [SET_ZOOM (Num.of_Z 2); CLEAR; UNDO] in
  future s ≠ [] ∧ editorReducer (editorReducer s REDO) UNDO = s.
Proof.
  intros s. split; [discriminate|].
  apply (undo_redo_identity s). discriminate.
Defined.

Lemma timeline_undo s : timeline (editorReducer s UNDO) = timeline s.
Proof.
  destruct s as [ps cur fut].
  destruct ps as [|p0 ps _] using rev_ind; [done|].
  rewrite undo_snoc. unfold timeline. simpl. by rewrite <- app_assoc.
Qed.

Lemma timeline_redo s : timeline (editorReducer s REDO) = timeline s.
Proof.
  destruct s as [ps cur [|q qs]]; [done|].
  rewrite redo_cons. unfold timeline. simpl. by rewrite <- app_assoc.
Qed.

(** X2: undo and redo only move the cursor: over any run of them the sequence
    of snapshots, past then present then future, stays the same, so no
    snapshot is made, lost or reordered. *)
Theorem navigation_keeps_timeline s (actions : list EditorAction) :
  Forall (fun a => a = UNDO ∨ a = REDO) actions →
  timeline (run s actions) = timeline s
  ∧ length (past (run s actions)) + length (future (run s actions))
    = length (past s) + length (future s).
Proof.
  intros Ha.
  assert (Ht : timeline (run s actions) = timeline s).
  { revert s. induction Ha as [|a actions [-> | ->] _ IH]; intros s; [done| |].
    - change (run s (UNDO :: actions))
        with (run (editorReducer s UNDO) actions).
      by rewrite IH, timeline_undo.
    - change (run s (REDO :: actions))
        with (run (editorReducer s REDO) actions).
      by rewrite IH, timeline_redo. }
  split; [exact Ht|].
  apply (f_equal length) in Ht. unfold timeline in Ht.
  rewrite !length_app in Ht. simpl in Ht. lia.
Qed.

Lemma navigation_keeps_timeline_witness :
  let s := run initialState [SET_ZOOM (Num.of_Z 2); CLEAR] in
  timeline (run s [UNDO; UNDO; REDO; UNDO; UNDO; REDO]) = timeline s.
Proof.
  intros s.
  apply (navigation_keeps_timeline s [UNDO; UNDO; REDO; UNDO; UNDO; REDO]).
  repeat constructor; (by left) || (by right).
Defined.

(** X3: undo leaves the state as it is exactly when past is empty, and redo
    exactly when future is empty. *)
Theorem navigation_noop_iff s :
  (editorReducer s UNDO = s ↔ past s = [])
  ∧ (editorReducer s REDO = s ↔ future s = []).
Proof.
  split; split.
  - destruct s as [ps cur fut].
    destruct ps as [|p0 ps _] using rev_ind; [done|].
    rewrite undo_snoc. intros H. apply (f_equal past) in H. simpl in H.
    apply (f_equal length) in H. rewrite length_app in H. simpl in H. lia.
  - apply undo_empty_past.
  - destruct s as [ps cur [|q qs]]; [done|].
    rewrite redo_cons. intros H. apply (f_equal future) in H. simpl in H.
    apply (f_equal length) in H. simpl in H. lia.
  - apply redo_empty_future.
Qed.

(** X4: undo right after a recorded command gives back the past and the
    present from before it, and keeps what the command installed as the
    one snapshot to redo; redo then gives the state after the command. *)
Theorem undo_reverses_last_command s a :
  history_producing a = true → reorder_miss (present s) a = false →
  editorReducer (editorReducer s a) UNDO
  = {| past := past s; present := present s;
       future := [present (editorReducer s a)] |}
  ∧ editorReducer (editorReducer (editorReducer s a) UNDO) REDO
    = editorReducer s a.
Proof.
  intros Ha Hm. rewrite (history_push s a Ha Hm).
  unfold pushHistory. by rewrite undo_snoc, redo_cons.
Qed.

Lemma undo_reverses_last_command_witness :
  let s := run initialState [SET_ZOOM (Num.of_Z 2)] in
  editorReducer (editorReducer s (DELETE_OBJECT "region-top")) UNDO
  = {| past := past s; present := present s;
       future := [present (editorReducer s (DELETE_OBJECT "region-top"))] |}.
Proof.
  intros s.
  exact (proj1 (undo_reverses_last_command s (DELETE_OBJECT "region-top")
                  eq_refl eq_refl)).
Defined.

End Navigation.

(** ** The object collection under the commands *)

Section Collection.

Implicit Types (s : EditorState) (p : EditorPresent) (o t : EditorObject).
Implicit Types os : list EditorObject.

Lemma filter_fmap_commute {A B} (P : B → Prop) `{!∀ b, Decision (P b)}
    (f : A → B) (l : list A) :
  filter P (f <$> l) = f <$> filter (fun a => P (f a)) l.
Proof.
  induction l as [|a l IH]; [done|]. rewrite fmap_cons, !filter_cons.
  destruct (decide (P (f a))); by rewrite ?fmap_cons, IH.
Qed.

Lemma ids_filter i os :
  id <$> filter (fun o => id o ≠ i) os = filter (fun j => j ≠ i) (id <$> os).
Proof. by rewrite filter_fmap_commute. Qed.

Lemma same_but_zIndex_filter (P : EditorObject → Prop)
    `{!∀ o, Decision (P o)} os os' :
  (∀ z o, P (with_zIndex z o) ↔ P o) →
  same_but_zIndex os os' → same_but_zIndex (filter P os) (filter P os').
Proof.
  intros HP Hs. unfold same_but_zIndex in *.
  assert (Hc : ∀ l : list EditorObject,
             with_zIndex (Num.of_Z 0) <$> filter P l
                    = filter P (with_zIndex (Num.of_Z 0) <$> l)).
  { intros l. rewrite filter_fmap_commute. f_equal.
    apply list_filter_iff. intros o. symmetry. apply HP. }
  by rewrite !Hc, Hs.
Qed.

Lemma same_but_zIndex_ids os os' :
  same_but_zIndex os os' → id <$> os = id <$> os'.
Proof.
  intros H. apply (f_equal (fmap id)) in H.
  rewrite <- !list_fmap_compose in H. exact H.
Qed.

Lemma same_but_zIndex_types os os' :
  same_but_zIndex os os' → type <$> os = type <$> os'.
Proof.
  intros H. apply (f_equal (fmap type)) in H.
  rewrite <- !list_fmap_compose in H. exact H.
Qed.

Lemma find_by_id_app_miss i os os' :
  (∀ o, o ∈ os → id o ≠ i) → find_by_id i (os ++ os') = find_by_id i os'.
Proof.
  intros Hno. induction os as [|o os IH]; [done|]. unfold find_by_id. simpl.
  rewrite bool_decide_eq_false_2 by (apply Hno; left).
  apply IH. intros o' Ho'. apply Hno. by right.
Qed.

Lemma find_by_id_hit i t os : id t = i → find_by_id i (t :: os) = Some t.
Proof. intros H. unfold find_by_id. simpl. by rewrite bool_decide_eq_true_2. Qed.

(** Looking an id up after renormalizing finds the same object, z-index
    apart. *)
Lemma find_by_id_imap i (f : nat → EditorObject → EditorObject) os :
  (∀ k o, id (f k o) = id o) →
  match find_by_id i os with
  | None => find_by_id i (imap f os) = None
  | Some t => ∃ k, find_by_id i (imap f os) = Some (f k t)
  end.
Proof.
  intros Hf. revert f Hf. induction os as [|o os IH]; intros f Hf; [done|].
  unfold find_by_id in *. rewrite imap_cons. simpl. rewrite Hf.
  destruct (bool_decide (id o = i)); [by exists 0|].
  specialize (IH (f ∘ S) (fun k o' => Hf (S k) o')).
  destruct (find _ os) as [t|]; [|exact IH].
  destruct IH as [k Hk]. by exists (S k).
Qed.

Lemma rest_misses i os : ∀ o, o ∈ filter (fun o => id o ≠ i) os → id o ≠ i.
Proof. intros o Ho. by apply list_elem_of_filter in Ho as [? _]. Qed.

Lemma filter_rest_again i os :
  filter (fun o => id o ≠ i) (filter (fun o => id o ≠ i) os)
  = filter (fun o => id o ≠ i) os.
Proof. by apply list_filter_filter_l. Qed.

(** What a reorder leaves behind: the target is found again, and the
    others are the same once more. *)
Lemma reordered_again i os t (front : bool) :
  find_by_id i os = Some t →
  let rest := filter (fun o => id o ≠ i) os in
  let os1 := normalizeZIndex (if front then rest ++ [t] else t :: rest) in
  ∃ t1, find_by_id i os1 = Some t1
        ∧ same_but_zIndex [t1] [t]
        ∧ same_but_zIndex (filter (fun o => id o ≠ i) os1) rest.
Proof.
  intros Hf rest os1. apply find_by_id_Some in Hf as [_ Hid].
  assert (Hfind : find_by_id i (if front then rest ++ [t] else t :: rest)
                  = Some t).
  { destruct front.
    - rewrite find_by_id_app_miss by apply rest_misses.
      by apply find_by_id_hit.
    - by apply find_by_id_hit. }
  pose proof (find_by_id_imap i
                (fun index obj => with_zIndex (Num.of_nat index) obj)
                (if front then rest ++ [t] else t :: rest)
                (fun _ _ => eq_refl)) as Hi.
  rewrite Hfind in Hi. destruct Hi as [k Hk].
  exists (with_zIndex (Num.of_nat k) t). split; [exact Hk|]. split; [done|].
  assert (Hr : filter (fun o => id o ≠ i)
                 (if front then rest ++ [t] else t :: rest) = rest).
  { destruct front.
    - rewrite filter_app, filter_cons_False by (by intros ?).
      rewrite filter_nil, app_nil_r. apply filter_rest_again.
    - rewrite filter_cons_False by (by intros ?). apply filter_rest_again. }
  unfold same_but_zIndex. etrans.
  - apply (same_but_zIndex_filter (fun o => id o ≠ i)); [done|].
    apply normalizeZIndex_same_but_zIndex.
  - by rewrite Hr.
Qed.

Lemma same_but_zIndex_app os1 os2 os1' os2' :
  same_but_zIndex os1 os1' → same_but_zIndex os2 os2' →
  same_but_zIndex (os1 ++ os2) (os1' ++ os2').
Proof. unfold same_but_zIndex. intros H1 H2. by rewrite !fmap_app, H1, H2. Qed.

(** X5: reordering twice is reordering once, and the last reorder wins: after
    any reorder of an id, bring-to-front gives what bring-to-front alone
    gives, and send-to-back what send-to-back alone gives. *)
Theorem reorder_last_wins s i :
  let front s := editorReducer s (BRING_TO_FRONT i) in
  let back s := editorReducer s (SEND_TO_BACK i) in
  present (front (front s)) = present (front s)
  ∧ present (back (back s)) = present (back s)
  ∧ present (front (back s)) = present (front s)
  ∧ present (back (front s)) = present (back s).
Proof.
  intros front back. subst front back. simpl.
  destruct (find_by_id i (objects (present s))) as [t|] eqn:Hf;
    [|by rewrite Hf].
  cbn [pushHistory present with_objects objects].
  destruct (reordered_again i _ t true Hf) as (t1 & Hf1 & Ht1 & Hr1).
  destruct (reordered_again i _ t false Hf) as (t0 & Hf0 & Ht0 & Hr0).
  cbv zeta in Hf1, Hr1, Hf0, Hr0. rewrite Hf1, Hf0.
  cbn [pushHistory present with_objects objects selectedId zoom pan].
  set (rest := filter (fun o => id o ≠ i) (objects (present s))) in *.
  rewrite (same_but_zIndex_normalizeZIndex _ (rest ++ [t])
             (same_but_zIndex_app _ _ _ _ Hr1 Ht1)).
  rewrite (same_but_zIndex_normalizeZIndex _ (t :: rest)
             (same_but_zIndex_app [t0] _ [t] _ Ht0 Hr0
              : same_but_zIndex (t0 :: _) (t :: rest))).
  rewrite (same_but_zIndex_normalizeZIndex _ (rest ++ [t])
             (same_but_zIndex_app _ _ _ _ Hr0 Ht0)).
  rewrite (same_but_zIndex_normalizeZIndex _ (t :: rest)
             (same_but_zIndex_app [t1] _ [t] _ Ht1 Hr1
              : same_but_zIndex (t1 :: _) (t :: rest))).
  done.
Qed.

Lemma filter_all {A} (P : A → Prop) `{!∀ a, Decision (P a)} (l : list A) :
  Forall P l → filter P l = l.
Proof.
  induction 1 as [|a l Ha _ IH]; [done|].
  by rewrite filter_cons_True, IH.
Qed.

Lemma reorder_ids_Permutation i (ids : list string) :
  NoDup ids → i ∈ ids → filter (fun j => j ≠ i) ids ++ [i] ≡ₚ ids.
Proof.
  intros Hnd Hi. apply NoDup_Permutation; [|done|].
  - apply NoDup_app. split; [by apply NoDup_filter|]. split.
    + intros j Hj ->%list_elem_of_singleton.
      by apply list_elem_of_filter in Hj as [? _].
    + apply NoDup_singleton.
  - intros j. rewrite elem_of_app, list_elem_of_filter, list_elem_of_singleton.
    split; [intros [[_ ?]| ->]; done|].
    intros Hj. destruct (decide (j = i)); [by right | by left].
Qed.

(** X6: bring-to-front of an id that is found: the target becomes the last
    object, with the highest z-index; the others keep their order.  When
    ids are distinct, no object is lost or duplicated. *)
Theorem bring_to_front_places_last s i t :
  find_by_id i (objects (present s)) = Some t →
  let os := objects (present s) in
  let os' := objects (present (editorReducer s (BRING_TO_FRONT i))) in
  id <$> os' = filter (fun j => j ≠ i) (id <$> os) ++ [i]
  ∧ last os' = Some (with_zIndex (Num.of_nat (length os' - 1)) t)
  ∧ same_but_zIndex os' (filter (fun o => id o ≠ i) os ++ [t])
  ∧ (NoDup (id <$> os) →
     length os' = length os ∧ id <$> os' ≡ₚ id <$> os).
Proof.
  intros Hf os os'. subst os os'. simpl. rewrite Hf.
  cbn [pushHistory present with_objects objects].
  pose proof (find_by_id_Some _ _ _ Hf) as [Hin Hid].
  set (rest := filter (fun o => id o ≠ i) (objects (present s))).
  assert (Hids : id <$> normalizeZIndex (rest ++ [t])
                 = filter (fun j => j ≠ i) (id <$> objects (present s)) ++ [i]).
  { rewrite normalizeZIndex_ids, fmap_app. subst rest.
    by rewrite ids_filter, <- Hid. }
  split; [exact Hids|]. split; [|split].
  - rewrite normalizeZIndex_length, length_app. simpl.
    unfold normalizeZIndex. rewrite imap_app. simpl. rewrite last_snoc.
    do 3 f_equal. lia.
  - apply normalizeZIndex_same_but_zIndex.
  - intros Hnd.
    assert (Hp : id <$> normalizeZIndex (rest ++ [t])
                 ≡ₚ id <$> objects (present s)).
    { rewrite Hids. apply reorder_ids_Permutation; [done|].
      rewrite <- Hid. by apply list_elem_of_fmap_2. }
    split; [|exact Hp].
    apply Permutation_length in Hp. by rewrite !length_fmap in Hp.
Qed.

Lemma bring_to_front_places_last_witness :
  let t := createRegion "region-top" "Top Panel"
             (Num.of_Z <$> [120; 60; 220; 60; 250; 150; 90; 150])%Z
             "#fef2f2" (Num.of_Z 0) in
  let os' := objects (present (editorReducer initialState
                                 (BRING_TO_FRONT "region-top"))) in
  find_by_id "region-top" (objects (present initialState)) = Some t
  ∧ last os' = Some (with_zIndex (Num.of_nat (length os' - 1)) t).
Proof.
  intros t os'. split; [reflexivity|].
  exact (proj1 (proj2 (bring_to_front_places_last initialState "region-top" t
                         eq_refl))).
Defined.

(** X7: send-to-back of an id that is found: the target becomes the first
    object, with z-index 0; the others keep their order.  When ids are
    distinct, no object is lost or duplicated. *)
Theorem send_to_back_places_first s i t :
  find_by_id i (objects (present s)) = Some t →
  let os := objects (present s) in
  let os' := objects (present (editorReducer s (SEND_TO_BACK i))) in
  id <$> os' = i :: filter (fun j => j ≠ i) (id <$> os)
  ∧ head os' = Some (with_zIndex (Num.of_nat 0) t)
  ∧ same_but_zIndex os' (t :: filter (fun o => id o ≠ i) os)
  ∧ (NoDup (id <$> os) →
     length os' = length os ∧ id <$> os' ≡ₚ id <$> os).
Proof.
  intros Hf os os'. subst os os'. simpl. rewrite Hf.
  cbn [pushHistory present with_objects objects].
  pose proof (find_by_id_Some _ _ _ Hf) as [Hin Hid].
  set (rest := filter (fun o => id o ≠ i) (objects (present s))).
  assert (Hids : id <$> normalizeZIndex (t :: rest)
                 = i :: filter (fun j => j ≠ i) (id <$> objects (present s))).
  { rewrite normalizeZIndex_ids, fmap_cons. subst rest.
    by rewrite ids_filter, <- Hid. }
  split; [exact Hids|]. split; [|split].
  - reflexivity.
  - apply normalizeZIndex_same_but_zIndex.
  - intros Hnd.
    assert (Hp : id <$> normalizeZIndex (t :: rest)
                 ≡ₚ id <$> objects (present s)).
    { rewrite Hids. etrans; [apply Permutation_cons_append|].
      apply reorder_ids_Permutation; [done|].
      rewrite <- Hid. by apply list_elem_of_fmap_2. }
    split; [|exact Hp].
    apply Permutation_length in Hp. by rewrite !length_fmap in Hp.
Qed.

Lemma send_to_back_places_first_witness :
  let t := createRegion "region-right-strap" "Right Strap"
             (Num.of_Z <$> [220; 60; 240; 60; 260; 20; 240; 20])%Z
             "#eef2ff" (Num.of_Z 3) in
  let os' := objects (present (editorReducer initialState
                                 (SEND_TO_BACK "region-right-strap"))) in
  find_by_id "region-right-strap" (objects (present initialState)) = Some t
  ∧ head os' = Some (with_zIndex (Num.of_nat 0) t).
Proof.
  intros t os'. split; [reflexivity|].
  exact (proj1 (proj2 (send_to_back_places_first initialState
                         "region-right-strap" t eq_refl))).
Defined.

(** X8: delete removes every object that has the id and keeps the others in
    order; the selection never names the deleted id afterwards and is kept
    when it named something else; deleting the same id again changes
    nothing of present. *)
Theorem delete_removes_and_deselects s i :
  let s' := editorReducer s (DELETE_OBJECT i) in
  id <$> objects (present s')
  = filter (fun j => j ≠ i) (id <$> objects (present s))
  ∧ same_but_zIndex (objects (present s'))
      (filter (fun o => id o ≠ i) (objects (present s)))
  ∧ selectedId (present s') ≠ Some i
  ∧ (selectedId (present s) ≠ Some i →
     selectedId (present s') = selectedId (present s))
  ∧ present (editorReducer s' (DELETE_OBJECT i)) = present s'.
Proof.
  intros s'. subst s'. simpl.
  split; [by rewrite normalizeZIndex_ids, ids_filter|].
  split; [apply normalizeZIndex_same_but_zIndex|].
  assert (Hsel : (if bool_decide (selectedId (present s) = Some i)
                  then None else selectedId (present s)) ≠ Some i)
    by (by case_bool_decide).
  split; [exact Hsel|]. split; [intros Hne; by rewrite bool_decide_eq_false_2|].
  unfold with_selectedId, with_objects. simpl.
  rewrite (bool_decide_eq_false_2 _ Hsel). f_equal.
  apply same_but_zIndex_normalizeZIndex.
  unfold same_but_zIndex. etrans.
  - apply (same_but_zIndex_filter (fun o => id o ≠ i)); [done|].
    apply normalizeZIndex_same_but_zIndex.
  - by rewrite filter_rest_again.
Qed.

(** X9: add appends the object, gives it the next z-index whatever z-index it
    came with, and selects it; the objects that were there are kept in
    order, and unchanged when they were normalized. *)
Theorem add_appends_and_selects s o :
  let os := objects (present s) in
  let s' := editorReducer s (ADD_OBJECT o) in
  id <$> objects (present s') = (id <$> os) ++ [id o]
  ∧ last (objects (present s')) = Some (with_zIndex (Num.of_nat (length os)) o)
  ∧ length (objects (present s')) = S (length os)
  ∧ selectedId (present s') = Some (id o)
  ∧ same_but_zIndex (objects (present s')) (os ++ [o])
  ∧ (normalized os →
     objects (present s') = os ++ [with_zIndex (Num.of_nat (length os)) o]).
Proof.
  intros os s'. subst os s'. simpl.
  set (os := objects (present s)).
  set (o' := with_zIndex (Num.of_nat (length os)) o).
  assert (Hn : normalizeZIndex (os ++ [o']) = normalizeZIndex os ++ [o']).
  { unfold normalizeZIndex. rewrite imap_app. f_equal.
    cbn [imap]. subst o'. by rewrite Nat.add_0_r. }
  repeat split.
  - by rewrite normalizeZIndex_ids, fmap_app.
  - by rewrite Hn, last_snoc.
  - rewrite normalizeZIndex_length, length_app. simpl. lia.
  - etrans; [apply normalizeZIndex_same_but_zIndex|].
    unfold same_but_zIndex. by rewrite !fmap_app.
  - intros Hos. by rewrite Hn, (normalized_fixpoint _ Hos).
Qed.

(** X10: adding an object under a new id and then deleting that id gives back
    the objects that were there, when they were normalized; the selection
    is then empty. *)
Theorem add_then_delete s o :
  id o ∉ id <$> objects (present s) → normalized (objects (present s)) →
  let s' := editorReducer (editorReducer s (ADD_OBJECT o))
              (DELETE_OBJECT (id o)) in
  objects (present s') = objects (present s)
  ∧ selectedId (present s') = None
  ∧ zoom (present s') = zoom (present s)
  ∧ pan (present s') = pan (present s).
Proof.
  intros Hfresh Hn s'. subst s'. simpl.
  rewrite bool_decide_eq_true_2 by done. repeat split.
  set (os := objects (present s)).
  set (o' := with_zIndex (Num.of_nat (length os)) o).
  etrans; [|exact (normalized_fixpoint os Hn)].
  apply same_but_zIndex_normalizeZIndex.
  unfold same_but_zIndex. etrans.
  - apply (same_but_zIndex_filter (fun x => id x ≠ id o)); [done|].
    apply normalizeZIndex_same_but_zIndex.
  - rewrite filter_app, filter_cons_False by (by intros ?).
    rewrite filter_nil, app_nil_r. f_equal. apply filter_all.
    apply Forall_forall. intros x Hx Hid. apply Hfresh. rewrite <- Hid.
    by apply list_elem_of_fmap_2.
Qed.

Lemma add_then_delete_witness :
  let o := createRegion "rect-7" "Rect" [] "#bbf7d0" (Num.of_Z 42) in
  (id o ∉ id <$> objects (present initialState))
  ∧ objects (present (editorReducer (editorReducer initialState (ADD_OBJECT o))
                        (DELETE_OBJECT (id o))))
    = objects (present initialState).
Proof.
  intros o.
  assert (Hfresh : id o ∉ id <$> objects (present initialState))
    by (by apply (bool_decide_unpack _)).
  split; [exact Hfresh|].
  exact (proj1 (add_then_delete initialState o Hfresh
                  initialPresent_normalized)).
Defined.

(** X11: clear keeps the regions, in order, and nothing else; it empties the
    selection; clearing again changes nothing of present. *)
Theorem clear_keeps_regions s :
  let s' := editorReducer s CLEAR in
  Forall (fun o => type o = ObjectType.region) (objects (present s'))
  ∧ same_but_zIndex (objects (present s'))
      (filter (fun o => type o = ObjectType.region) (objects (present s)))
  ∧ selectedId (present s') = None
  ∧ present (editorReducer s' CLEAR) = present s'.
Proof.
  intros s'. subst s'. simpl.
  set (regions := filter (fun o => type o = ObjectType.region)
                    (objects (present s))).
  split; [|split; [apply normalizeZIndex_same_but_zIndex|split; [done|]]].
  - apply Forall_forall. intros x Hx.
    apply elem_of_lookup_imap_1 in Hx as (k & y & -> & Hy).
    apply list_elem_of_lookup_2 in Hy.
    by apply list_elem_of_filter in Hy as [? _].
  - unfold with_selectedId, with_objects. simpl. f_equal.
    apply same_but_zIndex_normalizeZIndex.
    unfold same_but_zIndex. etrans.
    + apply (same_but_zIndex_filter (fun o => type o = ObjectType.region));
        [done|].
      apply normalizeZIndex_same_but_zIndex.
    + subst regions. f_equal. by apply list_filter_filter_l.
Qed.

End Collection.

(** ** The selection *)

Section Selection.

Implicit Types (s : EditorState) (p : EditorPresent).

Lemma all_selection_valid_parts s :
  all_selection_valid s ↔
  Forall selection_valid (past s) ∧ selection_valid (present s)
  ∧ Forall selection_valid (future s).
Proof.
  unfold all_selection_valid, timeline. by rewrite Forall_app, Forall_cons.
Qed.

Lemma selection_valid_same p p' :
  selectedId p' = selectedId p → id <$> objects p' = id <$> objects p →
  selection_valid p → selection_valid p'.
Proof. unfold selection_valid. by intros -> ->. Qed.

Lemma pushHistory_selection_valid s p :
  all_selection_valid s → selection_valid p →
  all_selection_valid (pushHistory s p).
Proof.
  rewrite !all_selection_valid_parts. intros (Hp & Hc & _) Hv. simpl.
  split; [|by split]. apply Forall_app. split; [done|]. by constructor.
Qed.

Lemma ids_merge_no_id i changes (os : list EditorObject) :
  p_id changes = None →
  id <$> ((fun o => if bool_decide (id o = i) then merge o changes else o)
            <$> os) = id <$> os.
Proof.
  intros Hc. rewrite ids_merge, Hc. simpl.
  rewrite <- (list_fmap_id (id <$> os)) at 2. apply list_fmap_ext.
  intros _ a _. by destruct (bool_decide (a = i)).
Qed.

Lemma editorReducer_selection_valid s a :
  all_selection_valid s → selection_keeping s a →
  all_selection_valid (editorReducer s a).
Proof.
  intros Hs Ha. pose proof Hs as (Hp & Hc & Hf)%all_selection_valid_parts.
  destruct a; simpl in Ha.
  - apply all_selection_valid_parts. simpl. split; [done|]. split; [|done].
    unfold selection_valid. simpl. by destruct i.
  - apply pushHistory_selection_valid; [done|].
    unfold selection_valid. simpl.
    rewrite normalizeZIndex_ids, fmap_app. apply elem_of_app. right.
    by apply list_elem_of_singleton.
  - apply pushHistory_selection_valid; [done|].
    apply (selection_valid_same (present s)); [done| |done]. simpl.
    by rewrite normalizeZIndex_ids, ids_merge_no_id.
  - apply pushHistory_selection_valid; [done|].
    unfold selection_valid in *.
    cbn [selectedId objects with_objects with_selectedId].
    case_bool_decide as Hsel; [done|].
    destruct (selectedId (present s)) as [j|]; [|done].
    rewrite normalizeZIndex_ids, ids_filter. apply list_elem_of_filter.
    split; [congruence | done].
  - simpl. destruct (find_by_id i _) as [t|] eqn:Hfind; [|done].
    apply find_by_id_Some in Hfind as [_ Hid].
    apply pushHistory_selection_valid; [done|].
    unfold selection_valid in *.
    cbn [selectedId objects with_objects with_selectedId].
    destruct (selectedId (present s)) as [j|]; [|done].
    rewrite normalizeZIndex_ids, fmap_app, ids_filter, list_fmap_singleton,
      Hid, elem_of_app, list_elem_of_filter, list_elem_of_singleton.
    destruct (decide (j = i)); [by right | by left].
  - simpl. destruct (find_by_id i _) as [t|] eqn:Hfind; [|done].
    apply find_by_id_Some in Hfind as [_ Hid].
    apply pushHistory_selection_valid; [done|].
    unfold selection_valid in *.
    cbn [selectedId objects with_objects with_selectedId].
    destruct (selectedId (present s)) as [j|]; [|done].
    rewrite normalizeZIndex_ids, fmap_cons, ids_filter, elem_of_cons,
      list_elem_of_filter, Hid.
    destruct (decide (j = i)); [by left | by right].
  - apply pushHistory_selection_valid; [done|].
    apply (selection_valid_same (present s)); [done| |done]. simpl.
    by rewrite normalizeZIndex_ids, ids_fmap_same.
  - apply pushHistory_selection_valid; [done|].
    apply (selection_valid_same (present s)); [done| |done]. simpl.
    by rewrite normalizeZIndex_ids, ids_fmap_same.
  - by apply pushHistory_selection_valid.
  - by apply pushHistory_selection_valid.
  - by apply pushHistory_selection_valid.
  - by repeat constructor.
  - apply all_selection_valid_parts. simpl. split; [constructor|].
    split; [|constructor].
    apply (selection_valid_same p); [done| |done]. simpl.
    apply normalizeZIndex_ids.
  - unfold all_selection_valid. by rewrite timeline_undo.
  - unfold all_selection_valid. by rewrite timeline_redo.
  - by apply pushHistory_selection_valid.
Qed.

(** X12: the selection never dangles: along any run of commands that select
    only objects that are there, rename nothing and import only
    snapshots with a valid selection, the selected id of every snapshot of
    the history, present included, is empty or the id of one of its
    objects; what is selected is then found by id. *)
Theorem selection_never_dangles s (actions : list EditorAction) :
  all_selection_valid s → all_selection_keeping s actions →
  all_selection_valid (run s actions)
  ∧ ∀ i, selectedId (present (run s actions)) = Some i →
         ∃ o, find_by_id i (objects (present (run s actions))) = Some o
              ∧ id o = i.
Proof.
  intros Hs Ha.
  assert (Hr : all_selection_valid (run s actions)).
  { revert s Hs Ha. induction actions as [|a actions IH]; intros s Hs Ha;
      [done|].
    destruct Ha as [Ha Hrest]. apply IH; [|done].
    by apply editorReducer_selection_valid. }
  split; [exact Hr|]. intros i Hi.
  apply all_selection_valid_parts in Hr as (_ & Hv & _).
  unfold selection_valid in Hv. rewrite Hi in Hv.
  destruct (find_by_id i (objects (present (run s actions)))) as [o|] eqn:Hf.
  - exists o. split; [done|]. by apply find_by_id_Some in Hf as [_ ?].
  - apply list_elem_of_fmap in Hv as (o & -> & Ho).
    by apply (proj1 (find_by_id_None _ _) Hf) in Ho.
Qed.

Lemma selection_never_dangles_witness :
  let o := createRegion "rect-7" "Rect" [] "#bbf7d0" (Num.of_Z 0) in
  let actions := [ADD_OBJECT o; SET_SELECTED (Some "region-top");
                  BRING_TO_FRONT "region-top"; DELETE_OBJECT "rect-7"; UNDO] in
  all_selection_keeping initialState actions
  ∧ all_selection_valid (run initialState actions).
Proof.
  intros o actions.
  assert (Hk : all_selection_keeping initialState actions).
  { repeat split.
    change ("region-top" ∈ id <$> objects
              (present (editorReducer initialState (ADD_OBJECT o)))).
    by apply (bool_decide_unpack _). }
  split; [exact Hk|].
  apply (selection_never_dangles initialState actions); [|exact Hk].
  by repeat constructor.
Defined.

End Selection.

(** ** More on numbers: order, [clamp], [Math.min] and [Math.max] *)

Section Order.

Implicit Types a b c v lo hi : number.

Lemma leb_refl a : Num.is_nan a = false → Num.leb a a = true.
Proof.
  unfold Num.leb, SFleb. destruct a as [[]|[]| |[] m e]; try done.
  all: intros _; simpl; rewrite Z.compare_refl, Pos.compare_cont_refl; done.
Qed.

Lemma leb_not_nan a b :
  Num.leb a b = true → Num.is_nan a = false ∧ Num.is_nan b = false.
Proof.
  unfold Num.leb, SFleb.
  by destruct a as [[]|[]| |[] ma ea], b as [[]|[]| |[] mb eb].
Qed.

Lemma leb_ltb_false a b : Num.leb a b = true → Num.ltb b a = false.
Proof.
  unfold Num.leb, Num.ltb, SFleb, SFltb. rewrite (SFcompare_antisym a b).
  by destruct (SFcompare a b) as [[]|].
Qed.

Ltac compare_cases :=
  repeat match goal with
         | |- context [(?x ?= ?y)%Z] => destruct (Z.compare_spec x y)
         | |- context [Pos.compare_cont Eq ?x ?y] =>
             change (Pos.compare_cont Eq x y) with (Pos.compare x y);
             destruct (Pos.compare_spec x y)
         end.

Lemma leb_trans a b c :
  Num.leb a b = true → Num.leb b c = true → Num.leb a c = true.
Proof.
  unfold Num.leb, SFleb.
  destruct a as [[]|[]| |[] ma ea], b as [[]|[]| |[] mb eb],
    c as [[]|[]| |[] mc ec]; simpl; try done.
  all: compare_cases; simpl; try done; try lia.
Qed.

(** One step of [Math.max] and of [Math.min] on numbers: the result is one
    of the two, and bounds both. *)
Lemma max_step_spec a b :
  Num.is_nan a = false → Num.is_nan b = false →
  (Num.max_step a b = a ∨ Num.max_step a b = b)
  ∧ Num.leb a (Num.max_step a b) = true
  ∧ Num.leb b (Num.max_step a b) = true.
Proof.
  intros Ha Hb. unfold Num.max_step. rewrite Ha, Hb. simpl.
  destruct (Num.is_pos_zero b && Num.is_neg_zero a) eqn:Hz.
  - split; [by right|]. split; [|by apply leb_refl].
    by destruct a as [[]|[]| |[] ma ea], b as [[]|[]| |[] mb eb].
  - destruct (Num.ltb a b) eqn:Hlt.
    + split; [by right|]. split; [by apply ltb_leb | by apply leb_refl].
    + split; [by left|]. split; [by apply leb_refl | by apply not_ltb_leb].
Qed.

Lemma min_step_spec a b :
  Num.is_nan a = false → Num.is_nan b = false →
  (Num.min_step a b = a ∨ Num.min_step a b = b)
  ∧ Num.leb (Num.min_step a b) a = true
  ∧ Num.leb (Num.min_step a b) b = true.
Proof.
  intros Ha Hb. unfold Num.min_step. rewrite Ha, Hb. simpl.
  destruct (Num.is_neg_zero b && Num.is_pos_zero a) eqn:Hz.
  - split; [by right|]. split; [|by apply leb_refl].
    by destruct a as [[]|[]| |[] ma ea], b as [[]|[]| |[] mb eb].
  - destruct (Num.ltb b a) eqn:Hlt.
    + split; [by right|]. split; [by apply ltb_leb | by apply leb_refl].
    + split; [by left|]. split; [by apply leb_refl | by apply not_ltb_leb].
Qed.

(** X13: [clamp] between any two bounds in order, none of the three numbers
    being NaN: the result lies between the bounds and is the value or one
    of the bounds. *)
Theorem clamp_within_bounds v lo hi :
  Num.is_nan v = false → Num.leb lo hi = true →
  Num.leb lo (clamp v lo hi) = true
  ∧ Num.leb (clamp v lo hi) hi = true
  ∧ (clamp v lo hi = v ∨ clamp v lo hi = lo ∨ clamp v lo hi = hi).
Proof.
  intros Hv Hb. destruct (leb_not_nan lo hi Hb) as [Hlo Hhi].
  unfold clamp, Num.Math_min, Num.Math_max. simpl foldl.
  rewrite (max_step_neg_Infinity v Hv).
  destruct (max_step_spec v lo Hv Hlo) as (Hm & Hvm & Hlm).
  assert (Hmn : Num.is_nan (Num.max_step v lo) = false)
    by (by destruct Hm as [-> | ->]).
  rewrite (min_step_Infinity _ Hmn).
  destruct (min_step_spec (Num.max_step v lo) hi Hmn Hhi) as (Hr & Hrm & Hrh).
  split; [|split; [exact Hrh|]].
  - by destruct Hr as [-> | ->].
  - destruct Hr as [-> | ->]; [|by right; right].
    destruct Hm as [-> | ->]; [by left | by right; left].
Qed.

Lemma clamp_within_bounds_witness :
  Num.leb (Num.of_Z 0) (clamp (Num.of_Z (-3)) (Num.of_Z 0) (Num.of_Z 1)) = true
  ∧ Num.leb (clamp (Num.of_Z (-3)) (Num.of_Z 0) (Num.of_Z 1)) (Num.of_Z 1)
    = true.
Proof.
  destruct (clamp_within_bounds (Num.of_Z (-3)) (Num.of_Z 0) (Num.of_Z 1)
              eq_refl eq_refl) as (Hl & Hh & _).
  split; [exact Hl | exact Hh].
Defined.

Lemma clamp_zoom_fixpoint v :
  zoom_in_range v → clamp v Num.lit_0_2 (Num.of_Z 4) = v.
Proof.
  intros [Hlo Hhi]. destruct (leb_not_nan _ _ Hlo) as [_ Hv].
  rewrite (clamp_zoom_cases v Hv).
  by rewrite (leb_ltb_false _ _ Hlo), (leb_ltb_false _ _ Hhi).
Qed.

(** X14: clamping to the zoom interval twice is clamping once, for every
    request, NaN included; so set-zoom stores a request that is within
    the interval as it is. *)
Theorem clamp_zoom_idempotent v :
  clamp (clamp v Num.lit_0_2 (Num.of_Z 4)) Num.lit_0_2 (Num.of_Z 4)
  = clamp v Num.lit_0_2 (Num.of_Z 4)
  ∧ ∀ s, zoom (present (editorReducer (editorReducer s (SET_ZOOM v))
                          (SET_ZOOM (zoom (present
                             (editorReducer s (SET_ZOOM v)))))))
         = zoom (present (editorReducer s (SET_ZOOM v))).
Proof.
  assert (Hi : clamp (clamp v Num.lit_0_2 (Num.of_Z 4)) Num.lit_0_2 (Num.of_Z 4)
               = clamp v Num.lit_0_2 (Num.of_Z 4)).
  { destruct (Num.is_nan v) eqn:Hv.
    - destruct v; try discriminate. reflexivity.
    - by apply clamp_zoom_fixpoint, clamp_zoom_in_range. }
  split; [exact Hi|]. intros s. exact Hi.
Qed.

End Order.

(** ** Bounds of a point sequence *)

Section Bounds.

Implicit Types (a b v acc : number) (vs points : list number).

Lemma foldl_min_step_NaN vs : foldl Num.min_step Num.NaN vs = Num.NaN.
Proof. induction vs as [|v vs IH]; [done|]. exact IH. Qed.

Lemma foldl_max_step_NaN vs : foldl Num.max_step Num.NaN vs = Num.NaN.
Proof. induction vs as [|v vs IH]; [done|]. exact IH. Qed.

Lemma min_step_NaN_r acc : Num.min_step acc Num.NaN = Num.NaN.
Proof. unfold Num.min_step. by rewrite orb_true_r. Qed.

Lemma max_step_NaN_r acc : Num.max_step acc Num.NaN = Num.NaN.
Proof. unfold Num.max_step. by rewrite orb_true_r. Qed.

(** NaN among the arguments makes [Math.min] and [Math.max] NaN. *)
Lemma Math_min_max_NaN vs :
  Num.NaN ∈ vs → Num.Math_min vs = Num.NaN ∧ Num.Math_max vs = Num.NaN.
Proof.
  unfold Num.Math_min, Num.Math_max.
  generalize Num.Infinity, Num.neg_Infinity.
  induction vs as [|v vs IH]; intros lo hi Hin; [by apply elem_of_nil in Hin|].
  apply elem_of_cons in Hin as [<- | Hin]; simpl.
  - by rewrite min_step_NaN_r, max_step_NaN_r, foldl_min_step_NaN,
      foldl_max_step_NaN.
  - by apply IH.
Qed.

(** The loop of [getBoundsFromPoints] on a sequence of odd length reads
    one coordinate that is not there. *)
Lemma split_points_odd n points :
  length points = 2 * n + 1 → Num.NaN ∈ (split_points points).2.
Proof.
  revert points. induction n as [|n IH]; intros points Hl.
  - destruct points as [|a [|b rest]]; simpl in Hl; try lia. simpl. by left.
  - destruct points as [|a [|b rest]]; simpl in Hl; try lia.
    specialize (IH rest ltac:(lia)).
    simpl. destruct (split_points rest) as [xs ys]. simpl in *. by right.
Qed.

(** X15: with an unpaired trailing coordinate, the height and the minimal y of
    the bounds are NaN, whatever the coordinates are. *)
Theorem bounds_of_odd_length points (i nm fl : string) (z : number) :
  Nat.Odd (length points) →
  b_height (getBoundsFromPoints points) = Num.NaN
  ∧ b_minY (getBoundsFromPoints points) = Num.NaN
  ∧ height (createRegion i nm points fl z) = Num.NaN.
Proof.
  intros [n Hn]. pose proof (split_points_odd n points Hn) as Hin.
  unfold createRegion, getBoundsFromPoints.
  destruct (split_points points) as [xs ys]. simpl in Hin.
  destruct (Math_min_max_NaN ys Hin) as [Hmin Hmax]. simpl.
  by rewrite Hmin, Hmax.
Qed.

Lemma bounds_of_odd_length_witness :
  b_height (getBoundsFromPoints (Num.of_Z <$> [10; 20; 30]%Z)) = Num.NaN.
Proof.
  apply (bounds_of_odd_length (Num.of_Z <$> [10; 20; 30]%Z) "r" "R" "#fff"
           (Num.of_Z 0)).
  exists 1. reflexivity.
Defined.

(** On a sequence of even length the loop pairs the coordinates up. *)
Lemma split_points_even n points :
  length points = 2 * n →
  length (split_points points).1 = n ∧ length (split_points points).2 = n
  ∧ ∀ k, (split_points points).1 !! k = points !! (2 * k)
         ∧ (split_points points).2 !! k = points !! (2 * k + 1).
Proof.
  revert points. induction n as [|n IH]; intros points Hl.
  - destruct points; [|discriminate]. repeat split; by destruct k.
  - destruct points as [|a [|b rest]]; simpl in Hl; try lia.
    destruct (IH rest ltac:(lia)) as (Hx & Hy & Hk).
    cbn [split_points]. destruct (split_points rest) as [xs ys].
    cbn [fst snd] in *.
    split; [by rewrite <- Hx|]. split; [by rewrite <- Hy|].
    intros [|k]; [done|]. destruct (Hk k) as [Hkx Hky].
    replace (2 * S k) with (S (S (2 * k))) by lia.
    replace (S (S (2 * k)) + 1) with (S (S (2 * k + 1))) by lia.
    exact (conj Hkx Hky).
Qed.

(** [Math.min] of numbers, run from an accumulator: the result is below the
    accumulator and every argument, and is one of them. *)
Lemma foldl_min_step_spec vs acc :
  Num.is_nan acc = false → no_NaN vs →
  let r := foldl Num.min_step acc vs in
  Num.is_nan r = false ∧ Num.leb r acc = true
  ∧ (∀ v, v ∈ vs → Num.leb r v = true) ∧ (r = acc ∨ r ∈ vs).
Proof.
  revert acc. induction vs as [|v vs IH]; intros acc Hacc Hvs; simpl.
  - split; [done|]. split; [by apply leb_refl|]. split; [|by left].
    intros v Hv. by apply elem_of_nil in Hv.
  - apply Forall_cons in Hvs as [Hv Hvs].
    destruct (min_step_spec acc v Hacc Hv) as (Hm & Hma & Hmv).
    assert (Hmn : Num.is_nan (Num.min_step acc v) = false)
      by (by destruct Hm as [-> | ->]).
    destruct (IH _ Hmn Hvs) as (Hr & Hrm & Hall & Hin).
    split; [done|]. split; [by eapply leb_trans|]. split.
    + intros w [-> | Hw]%elem_of_cons; [by eapply leb_trans | by apply Hall].
    + destruct Hin as [-> | Hin]; [|by right; right].
      destruct Hm as [-> | ->]; [by left | by right; left].
Qed.

Lemma Math_min_spec v vs :
  no_NaN (v :: vs) →
  Num.Math_min (v :: vs) ∈ v :: vs
  ∧ ∀ w, w ∈ v :: vs → Num.leb (Num.Math_min (v :: vs)) w = true.
Proof.
  intros Hvs. pose proof Hvs as [Hv Hrest]%Forall_cons.
  unfold Num.Math_min. simpl. rewrite (min_step_Infinity v Hv).
  destruct (foldl_min_step_spec vs v Hv Hrest) as (_ & Hrv & Hall & Hin).
  split.
  - destruct Hin as [-> | Hin]; [by left | by right].
  - intros w [-> | Hw]%elem_of_cons; [done | by apply Hall].
Qed.

(** X16: for a non-empty sequence of coordinate pairs, none of them NaN, the
    minimal corner of the bounds is made of the least x and the least y:
    each is one of the coordinates and is below all the others. *)
Theorem bounds_min_corner points :
  no_NaN points → points ≠ [] → Nat.Even (length points) →
  let b := getBoundsFromPoints points in
  (∀ k v, points !! (2 * k) = Some v → Num.leb (b_minX b) v = true)
  ∧ (∀ k v, points !! (2 * k + 1) = Some v → Num.leb (b_minY b) v = true)
  ∧ (∃ k, points !! (2 * k) = Some (b_minX b))
  ∧ (∃ k, points !! (2 * k + 1) = Some (b_minY b)).
Proof.
  intros Hnan Hne [n Hn] b. subst b.
  destruct (split_points_even n points Hn) as (Hlx & Hly & Hk).
  unfold getBoundsFromPoints.
  destruct (split_points points) as [xs ys]. cbn [fst snd] in *.
  assert (Hn0 : n ≠ 0) by (intros ->; by destruct points).
  assert (Hsub : ∀ l : list number,
            (∀ k v, l !! k = Some v → ∃ j, points !! j = Some v) → no_NaN l).
  { intros l Hl. apply Forall_lookup. intros k v Hv.
    destruct (Hl k v Hv) as [j Hj].
    by apply (proj1 (Forall_lookup _ _) Hnan j v). }
  assert (Hxs : no_NaN xs).
  { apply Hsub. intros k v Hv. exists (2 * k). by rewrite <- (proj1 (Hk k)). }
  assert (Hys : no_NaN ys).
  { apply Hsub. intros k v Hv. exists (2 * k + 1).
    by rewrite <- (proj2 (Hk k)). }
  destruct xs as [|x xs]; [simpl in Hlx; lia|].
  destruct ys as [|y ys]; [simpl in Hly; lia|].
  destruct (Math_min_spec x xs Hxs) as [Hinx Hallx].
  destruct (Math_min_spec y ys Hys) as [Hiny Hally].
  repeat split.
  - intros k v Hv. apply Hallx. rewrite <- (proj1 (Hk k)) in Hv.
    by apply list_elem_of_lookup_2 in Hv.
  - intros k v Hv. apply Hally. rewrite <- (proj2 (Hk k)) in Hv.
    by apply list_elem_of_lookup_2 in Hv.
  - apply list_elem_of_lookup_1 in Hinx as [k Hkx]. exists k.
    by rewrite <- (proj1 (Hk k)).
  - apply list_elem_of_lookup_1 in Hiny as [k Hky]. exists k.
    by rewrite <- (proj2 (Hk k)).
Qed.

Lemma bounds_min_corner_witness :
  let points := (Num.of_Z <$> [120; 60; 220; 60; 250; 150; 90; 150])%Z in
  points ≠ []
  ∧ Num.leb (b_minX (getBoundsFromPoints points)) (Num.of_Z 250) = true
  ∧ Num.leb (b_minY (getBoundsFromPoints points)) (Num.of_Z 150) = true.
Proof.
  intros points.
  assert (Hnan : no_NaN points) by (by repeat constructor).
  assert (Hne : points ≠ []) by discriminate.
  assert (Hev : Nat.Even (length points)) by (exists 4; reflexivity).
  destruct (bounds_min_corner points Hnan Hne Hev) as (Hx & Hy & _).
  split; [exact Hne|]. split.
  - exact (Hx 2 (Num.of_Z 250) eq_refl).
  - exact (Hy 2 (Num.of_Z 150) eq_refl).
Defined.

End Bounds.

(** ** What the handlers of the view send *)

Section Handlers.

Implicit Types (s : EditorState) (o obj selected : EditorObject).
Implicit Types (v parsed : number).

Lemma Math_max_pair lo v :
  Num.is_nan lo = false → Num.is_nan v = false →
  Num.is_nan (Num.Math_max [lo; v]) = false
  ∧ Num.leb lo (Num.Math_max [lo; v]) = true
  ∧ Num.leb v (Num.Math_max [lo; v]) = true.
Proof.
  intros Hlo Hv. unfold Num.Math_max. simpl.
  rewrite (max_step_neg_Infinity lo Hlo).
  destruct (max_step_spec lo v Hlo Hv) as (Hm & Hl & Hr).
  split; [by destruct Hm as [-> | ->] | by split].
Qed.

Lemma Math_min_pair hi v :
  Num.is_nan hi = false → Num.is_nan v = false →
  (Num.Math_min [hi; v] = hi ∨ Num.Math_min [hi; v] = v)
  ∧ Num.leb (Num.Math_min [hi; v]) hi = true
  ∧ Num.leb (Num.Math_min [hi; v]) v = true.
Proof.
  intros Hhi Hv. unfold Num.Math_min. simpl.
  rewrite (min_step_Infinity hi Hhi).
  exact (min_step_spec hi v Hhi Hv).
Qed.

(** [parsed || 0] is a number. *)
Lemma or_else_zero_not_nan parsed :
  Num.is_nan (Num.or_else parsed (Num.of_Z 0)) = false.
Proof. by destruct parsed as [[]|[]| |[] m e]. Qed.

(** The object an update by id leaves at a position where the id was. *)
Lemma update_at s i changes k o :
  objects (present s) !! k = Some o → id o = i →
  objects (present (editorReducer s (UPDATE_OBJECT i changes))) !! k
  = Some (with_zIndex (Num.of_nat k) (merge o changes)).
Proof.
  intros Hk Hi. simpl.
  rewrite normalizeZIndex_lookup, list_lookup_fmap, Hk. simpl.
  by rewrite bool_decide_eq_true_2.
Qed.

(** X17: after a transform, position and rotation of the object are the
    node's.  A region keeps its width and height and accumulates the
    scale; any other object gets scale 1, the width
    [Math.max(8, width * scaleX)] and the height
    [Math.max(8, height * scaleY)], which are at least 8 unless the
    product of size and scale is NaN. *)
Theorem handleTransformEnd_result s k obj (node : Node) :
  objects (present s) !! k = Some obj →
  ∃ o', objects (present (editorReducer s (handleTransformEnd obj node))) !! k
        = Some o'
    ∧ id o' = id obj ∧ type o' = type obj
    ∧ x o' = node_x node ∧ y o' = node_y node
    ∧ rotation o' = node_rotation node
    ∧ (type obj = ObjectType.region →
       width o' = width obj ∧ height o' = height obj
       ∧ scaleX o' = Some (Num.mul (default (Num.of_Z 1) (scaleX obj))
                             (node_scaleX node))
       ∧ scaleY o' = Some (Num.mul (default (Num.of_Z 1) (scaleY obj))
                             (node_scaleY node)))
    ∧ (type obj ≠ ObjectType.region →
       scaleX o' = Some (Num.of_Z 1) ∧ scaleY o' = Some (Num.of_Z 1)
       ∧ width o'
         = Num.Math_max [Num.of_Z 8; Num.mul (width obj) (node_scaleX node)]
       ∧ height o'
         = Num.Math_max [Num.of_Z 8; Num.mul (height obj) (node_scaleY node)]
       ∧ (Num.is_nan (Num.mul (width obj) (node_scaleX node)) = false →
          Num.leb (Num.of_Z 8) (width o') = true)
       ∧ (Num.is_nan (Num.mul (height obj) (node_scaleY node)) = false →
          Num.leb (Num.of_Z 8) (height o') = true)).
Proof.
  intros Hk. unfold handleTransformEnd.
  eexists. split; [by apply update_at|].
  case_bool_decide as Ht;
    cbn -[Num.Math_min Num.Math_max Num.mul Num.of_Z Num.leb Num.is_nan];
    repeat split; try done.
  - intros Hn. by apply Math_max_pair.
  - intros Hn. by apply Math_max_pair.
Qed.

Lemma handleTransformEnd_result_witness :
  let shape := merge (createRegion "rect-1" "Rect" [] "#bbf7d0" (Num.of_Z 0))
    (mkPartialObject None (Some ObjectType.rect) None None None
       (Some (Num.of_Z 160)) (Some (Num.of_Z 100)) None None None None None
       None None None None None None None None None None None None) in
  let s := editorReducer initialState (ADD_OBJECT shape) in
  let node := mkNode (Num.of_Z 10) (Num.of_Z 20) (Num.of_Z 0)
                Num.lit_0_2 (Num.of_Z 0) in
  ∃ o', objects (present (editorReducer s (handleTransformEnd shape node))) !! 4
        = Some o'
    ∧ width o' = Num.of_Z 32 ∧ height o' = Num.of_Z 8.
Proof.
  intros shape s node.
  destruct (handleTransformEnd_result s 4
              (with_zIndex (Num.of_nat 4) shape) node eq_refl)
    as (o' & Ho' & _).
  exists o'. split; [exact Ho'|].
  vm_compute in Ho'. injection Ho' as <-. split; reflexivity.
Defined.

(** X18: whatever [parseFloat] read, NaN and infinities included, the numeric
    inputs of the properties panel never send NaN: the width and the
    height they set are at least 8, the opacity lies in [0, 1], and the
    stroke width is at least 0. *)
Theorem panel_inputs_in_range s k o selected parsed :
  objects (present s) !! k = Some o → id o = id selected →
  (∃ o', objects (present (editorReducer s (update_width selected parsed))) !! k
         = Some o' ∧ Num.leb (Num.of_Z 8) (width o') = true)
  ∧ (∃ o', objects (present (editorReducer s (update_height selected parsed)))
             !! k = Some o' ∧ Num.leb (Num.of_Z 8) (height o') = true)
  ∧ (∃ o', objects (present (editorReducer s (update_opacity selected parsed)))
             !! k = Some o'
           ∧ Num.leb (Num.of_Z 0) (opacity o') = true
           ∧ Num.leb (opacity o') (Num.of_Z 1) = true)
  ∧ (∃ o' w, objects (present (editorReducer s
                                  (update_strokeWidth selected parsed))) !! k
             = Some o'
             ∧ strokeWidth o' = Some w ∧ Num.leb (Num.of_Z 0) w = true).
Proof.
  intros Hk Hi. pose proof (or_else_zero_not_nan parsed) as Hp.
  split; [|split; [|split]].
  - eexists. split; [by apply update_at|].
    cbn -[Num.Math_min Num.Math_max Num.or_else Num.of_Z Num.leb]. by apply Math_max_pair.
  - eexists. split; [by apply update_at|].
    cbn -[Num.Math_min Num.Math_max Num.or_else Num.of_Z Num.leb]. by apply Math_max_pair.
  - eexists. split; [by apply update_at|].
    cbn -[Num.Math_min Num.Math_max Num.or_else Num.of_Z Num.leb].
    destruct (Math_max_pair (Num.of_Z 0) _ eq_refl Hp) as (Hn & H0 & _).
    destruct (Math_min_pair (Num.of_Z 1) _ eq_refl Hn) as (Hr & H1 & _).
    split; [|exact H1]. by destruct Hr as [-> | ->].
  - eexists _, _. split; [by apply update_at|].
    cbn -[Num.Math_min Num.Math_max Num.or_else Num.of_Z Num.leb]. split; [done|].
    by apply Math_max_pair.
Qed.

Lemma panel_inputs_in_range_witness :
  let selected := createRegion "region-top" "Top Panel" [] "#fef2f2"
                    (Num.of_Z 0) in
  ∃ o', objects (present (editorReducer initialState
                            (update_opacity selected Num.NaN))) !! 0 = Some o'
        ∧ Num.leb (Num.of_Z 0) (opacity o') = true
        ∧ Num.leb (opacity o') (Num.of_Z 1) = true.
Proof.
  intros selected.
  destruct (panel_inputs_in_range initialState 0
              (createRegion "region-top" "Top Panel"
                 (Num.of_Z <$> [120; 60; 220; 60; 250; 150; 90; 150])%Z
                 "#fef2f2" (Num.of_Z 0))
              selected Num.NaN eq_refl eq_refl) as (_ & _ & Ho & _).
  exact Ho.
Defined.

(** X19: A wheel step sends nothing without a pointer position.  With one it
    sends a set-viewport whose scale is the old zoom times or divided by
    1.05, clamped; the reducer, which clamps again, stores that very
    scale, so the pan sent with it is the pan of the zoom that is stored. *)
Theorem handleWheel_viewport p (pointer : Point) deltaY :
  handleWheel p None deltaY = None
  ∧ ∃ z q, handleWheel p (Some pointer) deltaY = Some (SET_VIEWPORT z q)
      ∧ z = clamp (if Num.ltb (Num.of_Z 0) deltaY
                   then Num.div (zoom p) Num.lit_1_05
                   else Num.mul (zoom p) Num.lit_1_05)
              Num.lit_0_2 (Num.of_Z 4)
      ∧ (Num.is_nan z = false → zoom_in_range z)
      ∧ ∀ s, zoom (present (editorReducer s (SET_VIEWPORT z q))) = z
             ∧ pan (present (editorReducer s (SET_VIEWPORT z q))) = q
             ∧ objects (present (editorReducer s (SET_VIEWPORT z q)))
               = objects (present s).
Proof.
  split; [done|]. unfold handleWheel. eexists _, _. split; [done|].
  assert (Hz : clamp (if Num.ltb (Num.of_Z 0)
                          (if Num.ltb (Num.of_Z 0) deltaY
                           then Num.of_Z (-1) else Num.of_Z 1)
                      then Num.mul (zoom p) Num.lit_1_05
                      else Num.div (zoom p) Num.lit_1_05)
                Num.lit_0_2 (Num.of_Z 4)
               = clamp (if Num.ltb (Num.of_Z 0) deltaY
                        then Num.div (zoom p) Num.lit_1_05
                        else Num.mul (zoom p) Num.lit_1_05)
                   Num.lit_0_2 (Num.of_Z 4))
    by (by destruct (Num.ltb (Num.of_Z 0) deltaY)).
  split; [exact Hz|]. split.
  - rewrite Hz. clear Hz.
    set (v := if Num.ltb (Num.of_Z 0) deltaY
              then Num.div (zoom p) Num.lit_1_05
              else Num.mul (zoom p) Num.lit_1_05).
    intros Hn. destruct (Num.is_nan v) eqn:Hv.
    + destruct v; try discriminate Hv. discriminate Hn.
    + by apply clamp_zoom_in_range.
  - intros s. simpl. split; [|done]. apply clamp_zoom_idempotent.
Qed.

End Handlers.

(** ** Import *)

Section Importing.

Implicit Types (s : EditorState) (p : EditorPresent) (text : json).

(** X20: for every text that reads as a snapshot (each key of the snapshot
    and of its objects there and of its type, the [zIndex] of an object
    aside, which may be missing or hold anything), the snapshot
    [parseState] returns is normalized; it has no object when the text has
    no [objects] key or has [null] there; the [zIndex] keys of the text
    are never read: a text that agrees with what is written for a snapshot
    on every key but the [zIndex] of the objects reads as that snapshot,
    renormalized; and importing what was read installs it as it is, with
    nothing to undo or redo. *)
Theorem parseState_normalizes text p :
  parseState text = Some p →
  zIndex <$> objects p = Num.of_nat <$> seq 0 (length (objects p))
  ∧ (∀ m, text = JObject m →
          m !! "objects" = None ∨ m !! "objects" = Some JNull →
          objects p = [])
  ∧ (∀ p0 ms, valid_snapshot p0 = true →
              Forall2 same_keys_but_zIndex (objects p0) ms →
              text = snapshot_text p0 (JObject <$> ms) →
              p = with_objects (normalizeZIndex (objects p0)) p0)
  ∧ ∀ s, editorReducer s (IMPORT_STATE p) = fresh_history p
         ∧ editorReducer (editorReducer s (IMPORT_STATE p)) UNDO
           = fresh_history p
         ∧ editorReducer (editorReducer s (IMPORT_STATE p)) REDO
           = fresh_history p.
Proof.
  intros Hp.
  split; [|split; [|split]].
  - unfold parseState in Hp.
    destruct (JSON_parse text) as [r|]; [|discriminate].
    simpl in Hp. injection Hp as <-. apply normalizeZIndex_normalized.
  - unfold parseState in Hp.
    destruct (JSON_parse text) as [r|] eqn:Hr; [|discriminate].
    simpl in Hp. injection Hp as <-. simpl.
    intros m -> Hm. simpl in Hr.
    assert (Ho : as_objects (m !! "objects") = Some None)
      by (by destruct Hm as [-> | ->]).
    rewrite Ho in Hr. simpl in Hr.
    destruct (required as_selectedId _) as [sel|]; [|discriminate].
    destruct (required as_number _) as [z|]; [|discriminate].
    destruct (required as_point _) as [q|]; [|discriminate].
    simpl in Hr. by injection Hr as <-.
  - intros p0 ms Hv Hms ->.
    rewrite (parseState_snapshot_text p0 ms Hv Hms) in Hp.
    by injection Hp.
  - assert (Hn : normalizeZIndex (objects p) = objects p).
    { unfold parseState in Hp.
      destruct (JSON_parse text) as [r|]; [|discriminate].
      simpl in Hp. injection Hp as <-. apply normalizeZIndex_idemp. }
    intros s. unfold fresh_history. simpl.
    by rewrite Hn, with_objects_same.
Qed.

Lemma parseState_normalizes_witness :
  let corners := (Num.of_Z <$> [1; 2; 5; 9])%Z in
  let a := createRegion "a" "A" corners "#ffffff" (Num.of_Z 7) in
  let b := createRegion "b" "B" corners "#000000" (Num.of_Z 7) in
  let p0 := mkEditorPresent [a; b] (Some "a") (Num.of_Z 2)
              (mkPoint (Num.of_Z 3) (Num.of_Z (-4))) in
  let text := snapshot_text p0
                [JObject (delete "zIndex" (object_fields a));
                 JObject (<["zIndex" := JString "top"]> (object_fields b))] in
  ∃ p, parseState text = Some p
       ∧ zIndex <$> objects p = [Num.of_Z 0; Num.of_Z 1]
       ∧ p = with_objects (normalizeZIndex [a; b]) p0.
Proof.
  intros corners a b p0 text.
  exists (with_objects (normalizeZIndex [a; b]) p0).
  assert (Hp : parseState text
               = Some (with_objects (normalizeZIndex [a; b]) p0))
    by (vm_compute; reflexivity).
  split; [exact Hp|].
  destruct (parseState_normalizes text _ Hp) as (Hz & _ & Hsame & _).
  split; [exact Hz|].
  apply (Hsame p0 [delete "zIndex" (object_fields a);
                   <["zIndex" := JString "top"]> (object_fields b)]);
    [reflexivity | | reflexivity].
  repeat constructor.
  - intros k Hk. by apply lookup_delete_ne.
  - intros k Hk. by apply lookup_insert_ne.
Defined.

(** X21: exporting the present and importing the text back keeps the present
    and drops the history: for a normalized present that JSON can carry,
    the import of what [serializeState] wrote gives the state with that
    present and nothing to undo or redo. *)
Theorem export_then_import s :
  valid_snapshot (present s) = true → normalized (objects (present s)) →
  ∃ p, parseState (serializeState (present s)) = Some p
       ∧ editorReducer s (IMPORT_STATE p) = fresh_history (present s).
Proof.
  intros Hv Hn. exists (present s).
  assert (Hp : parseState (serializeState (present s))
               = Some (with_objects (normalizeZIndex (objects (present s)))
                         (present s))).
  { by apply parseState_stringify. }
  rewrite Hp. cbn [editorReducer].
  rewrite (normalized_fixpoint _ Hn), with_objects_same. by split.
Qed.

Lemma export_then_import_witness :
  let s := run initialState [SET_ZOOM (Num.of_Z 2); DELETE_OBJECT "region-top"] in
  valid_snapshot (present s) = true
  ∧ ∃ p, parseState (serializeState (present s)) = Some p
         ∧ editorReducer s (IMPORT_STATE p) = fresh_history (present s).
Proof.
  intros s. split; [reflexivity|].
  apply (export_then_import s eq_refl). reflexivity.
Defined.

End Importing.

(** ** Normalization and the commands by id *)

Section Frame.

Implicit Types (s : EditorState) (o : EditorObject).
Implicit Types os : list EditorObject.

(** X22: [normalizeZIndex] touches z-indices only: it keeps the number and the
    order of the objects and all their other fields; it is idempotent; and
    the lists it leaves as they are are exactly the normalized ones. *)
Theorem normalizeZIndex_only_zIndex os :
  length (normalizeZIndex os) = length os
  ∧ same_but_zIndex (normalizeZIndex os) os
  ∧ (∀ k o, os !! k = Some o →
            normalizeZIndex os !! k = Some (with_zIndex (Num.of_nat k) o))
  ∧ normalizeZIndex (normalizeZIndex os) = normalizeZIndex os
  ∧ (normalizeZIndex os = os ↔ normalized os).
Proof.
  split; [apply normalizeZIndex_length|].
  split; [apply normalizeZIndex_same_but_zIndex|]. split.
  - intros k o Hk. by rewrite normalizeZIndex_lookup, Hk.
  - split; [apply normalizeZIndex_idemp|]. split.
    + intros <-. apply normalizeZIndex_normalized.
    + apply normalized_fixpoint.
Qed.

Lemma normalizeZIndex_fmap_again (f : EditorObject → EditorObject) os :
  (∀ z o, f (with_zIndex z o) = with_zIndex z (f o)) →
  normalizeZIndex (f <$> normalizeZIndex os) = normalizeZIndex (f <$> os).
Proof.
  intros Hf. apply same_but_zIndex_normalizeZIndex. unfold same_but_zIndex.
  rewrite <- !list_fmap_compose.
  rewrite (list_fmap_ext (with_zIndex (Num.of_Z 0) ∘ f)
             (f ∘ with_zIndex (Num.of_Z 0)) (normalizeZIndex os))
    by (intros _ o _; simpl; by rewrite Hf).
  rewrite (list_fmap_ext (with_zIndex (Num.of_Z 0) ∘ f)
             (f ∘ with_zIndex (Num.of_Z 0)) os)
    by (intros _ o _; simpl; by rewrite Hf).
  rewrite !list_fmap_compose. f_equal. apply erase_normalizeZIndex.
Qed.

Lemma by_id_commutes_zIndex (f : EditorObject → EditorObject) i :
  (∀ z o, f (with_zIndex z o) = with_zIndex z (f o)) →
  ∀ z o, (fun obj => if bool_decide (id obj = i) then f obj else obj)
           (with_zIndex z o)
         = with_zIndex z
             ((fun obj => if bool_decide (id obj = i) then f obj else obj) o).
Proof.
  intros Hf z o. cbv beta. rewrite with_zIndex_id.
  destruct (bool_decide (id o = i)); [apply Hf | done].
Qed.

(** X23: setting a flag twice, the last value wins; and set-visibility and
    set-lock commute, on the same id or on different ids. *)
Theorem flags_compose s i j (v v' l l' : bool) :
  present (editorReducer (editorReducer s (SET_VISIBILITY i v))
             (SET_VISIBILITY i v'))
  = present (editorReducer s (SET_VISIBILITY i v'))
  ∧ present (editorReducer (editorReducer s (SET_LOCK i l)) (SET_LOCK i l'))
    = present (editorReducer s (SET_LOCK i l'))
  ∧ present (editorReducer (editorReducer s (SET_LOCK j l))
               (SET_VISIBILITY i v))
    = present (editorReducer (editorReducer s (SET_VISIBILITY i v))
                 (SET_LOCK j l)).
Proof.
  simpl. unfold with_objects. simpl.
  rewrite !normalizeZIndex_fmap_again
    by (by apply by_id_commutes_zIndex).
  rewrite <- !list_fmap_compose.
  repeat split; f_equal; f_equal; apply list_fmap_ext; intros _ o _; simpl.
  - destruct (bool_decide (id o = i)) eqn:Hi; simpl; by rewrite Hi.
  - destruct (bool_decide (id o = i)) eqn:Hi; simpl; by rewrite Hi.
  - destruct (bool_decide (id o = i)) eqn:Hi,
      (bool_decide (id o = j)) eqn:Hj; simpl; by rewrite ?Hi, ?Hj.
Qed.

(** X24: update-attributes, set-visibility and set-lock leave alone the objects
    that have another id, the selection and the viewport; they keep the
    number of objects. *)
Theorem by_id_frame s i changes (v l : bool) a :
  a = UPDATE_OBJECT i changes ∨ a = SET_VISIBILITY i v ∨ a = SET_LOCK i l →
  length (objects (present (editorReducer s a))) = length (objects (present s))
  ∧ selectedId (present (editorReducer s a)) = selectedId (present s)
  ∧ zoom (present (editorReducer s a)) = zoom (present s)
  ∧ pan (present (editorReducer s a)) = pan (present s)
  ∧ ∀ k o, objects (present s) !! k = Some o → id o ≠ i →
           objects (present (editorReducer s a)) !! k
           = Some (with_zIndex (Num.of_nat k) o).
Proof.
  intros [-> | [-> | ->]]; simpl.
  all: rewrite normalizeZIndex_length, length_fmap.
  all: repeat split.
  all: intros k o Hk Hne.
  all: rewrite normalizeZIndex_lookup, list_lookup_fmap, Hk; simpl.
  all: by rewrite bool_decide_eq_false_2.
Qed.

Lemma by_id_frame_witness :
  let a := SET_LOCK "region-top" true in
  length (objects (present (editorReducer initialState a))) = 4
  ∧ selectedId (present (editorReducer initialState a)) = None.
Proof.
  intros a.
  destruct (by_id_frame initialState "region-top" no_changes true true a)
    as (Hl & Hs & _); [by right; right|].
  split; [exact Hl | exact Hs].
Defined.

End Frame.
